(** * HealthyBites: the product and ingredient repositories

    A shallow embedding of the two model classes of the server,
    [Ingredient] (ingredientModel.ts) and [Product] (productModel.ts), over
    an explicit document store, and the properties of the catalog
    specification that can be stated on them.

    Conventions of the embedding:
    - a MongoDB collection is the list of its documents in insertion order;
      [_id] is a natural number handed out by the store;
    - an [async] method is a computation in the monad [M]: it takes the
      store, returns either a value ([Ok]) or a thrown error ([Throw]), and
      the store it leaves behind;
    - string enums of the schemas are inductive types;
    - a JavaScript [number] is a rational for prices and counts and an
      integer for health ratings (the "10 to -10 scale" of the schema);
    - names are ASCII strings. *)

From Stdlib Require Import List String Ascii Bool Arith ZArith QArith Lia.
Import ListNotations.

Local Open Scope string_scope.
Local Open Scope nat_scope.
Local Open Scope list_scope.

(** ** Enumerations of the schemas *)

Inductive Species := cat | dog.
Inductive LifeStage := adult | young | all.
Inductive FoodType := dry | wet.
Inductive Unit := lb | can.

Definition Species_eqb (a b : Species) : bool :=
  match a, b with
  | cat, cat | dog, dog => true
  | _, _ => false
  end.

Definition LifeStage_eqb (a b : LifeStage) : bool :=
  match a, b with
  | adult, adult | young, young | all, all => true
  | _, _ => false
  end.

Definition FoodType_eqb (a b : FoodType) : bool :=
  match a, b with
  | dry, dry | wet, wet => true
  | _, _ => false
  end.

(** ** JavaScript values *)

(** An optional parameter of type [T | null]: left out, [null], or a value. *)
Inductive Optional (A : Type) :=
| undefined
| null
| given (a : A).
Arguments undefined {A}.
Arguments null {A}.
Arguments given {A} a.

(** [v ?? null] *)
Definition orNull {A} (v : Optional A) : option A :=
  match v with
  | given a => Some a
  | _ => None
  end.

(** [v ?? d] for a field that is either missing or present. *)
Definition orElse {A} (v : option A) (d : A) : A :=
  match v with
  | Some a => a
  | None => d
  end.

(** ** Errors and the store monad *)

(** The messages thrown by the models, by the name the specification gives
    them; [InvalidRegExp] is the [SyntaxError] of [new RegExp];
    [ValidationError] and [VersionError] are the errors with which [save]
    rejects, the first for a document the schema refuses, the second for a
    document that was written by someone else since it was read. *)
Inductive Error :=
| AlreadyExists
| NotFound
| NoUpdatesProvided
| IncompleteSizeDetails
| RatingAlreadyExists
| RatingNotFound
| SizeNotFound
| InvalidRegExp
| ValidationError
| VersionError.

Inductive Result (A : Type) :=
| Ok (a : A)
| Throw (e : Error).
Arguments Ok {A} a.
Arguments Throw {A} e.

Definition M (St A : Type) : Type := St -> Result A * St.

Definition ret {St A} (a : A) : M St A := fun s => (Ok a, s).

Definition throw {St A} (e : Error) : M St A := fun s => (Throw e, s).

Definition bind {St A B} (m : M St A) (k : A -> M St B) : M St B :=
  fun s =>
    match m s with
    | (Ok a, s') => k a s'
    | (Throw e, s') => (Throw e, s')
    end.

Definition gets {St A} (f : St -> A) : M St A := fun s => (Ok (f s), s).

Definition modify {St} (f : St -> St) : M St unit := fun s => (Ok tt, f s).

Declare Scope await_scope.
Delimit Scope await_scope with await.
Notation "x <- m ;; k" := (bind m (fun x => k))
  (at level 61, m at next level, right associativity) : await_scope.
Notation "m ;;; k" := (bind m (fun _ => k))
  (at level 61, right associativity) : await_scope.
Local Open Scope await_scope.

(** ** Regular expressions of the name filter

    [Ingredient.find] turns the [name] filter into [new RegExp(name, 'i')].
    The fragment of the pattern language covered here: a pattern made of
    ordinary characters and [.] compiles to a sequence of atoms; a pattern
    that starts with a quantifier, or opens a group that nothing can close,
    is a syntax error; every other pattern is [Beyond] the fragment and no
    statement is made about it. *)

Definition syntaxCharacters : list ascii :=
  list_ascii_of_string "^$\.*+?()[]{}|".

Definition isSyntaxCharacter (c : ascii) : bool :=
  existsb (Ascii.eqb c) syntaxCharacters.

Inductive Atom :=
| Char (c : ascii)
| AnyChar.

Inductive Compiled :=
| Pattern (atoms : list Atom)
| Invalid
| Beyond.

Fixpoint atoms_of (source : string) : option (list Atom) :=
  match source with
  | EmptyString => Some []
  | String c rest =>
      match atoms_of rest with
      | None => None
      | Some atoms =>
          if Ascii.eqb c "." then Some (AnyChar :: atoms)
          else if isSyntaxCharacter c then None
          else Some (Char c :: atoms)
      end
  end.

Fixpoint occurs (c : ascii) (s : string) : bool :=
  match s with
  | EmptyString => false
  | String d rest => Ascii.eqb c d || occurs c rest
  end.

Definition startsWithQuantifier (source : string) : bool :=
  match source with
  | String c _ => Ascii.eqb c "*" || Ascii.eqb c "+" || Ascii.eqb c "?"
  | EmptyString => false
  end.

Definition unterminatedGroup (source : string) : bool :=
  occurs "(" source
  && negb (occurs ")" source || occurs "\" source || occurs "[" source).

Definition RegExp (source : string) : Compiled :=
  match atoms_of source with
  | Some atoms => Pattern atoms
  | None =>
      if startsWithQuantifier source || unterminatedGroup source
      then Invalid
      else Beyond
  end.

(** Canonicalization under the [i] flag: a lower-case letter stands for its
    upper-case one. *)
Definition canonicalize (c : ascii) : ascii :=
  let n := nat_of_ascii c in
  if (97 <=? n) && (n <=? 122) then ascii_of_nat (n - 32) else c.

Definition isLineTerminator (c : ascii) : bool :=
  Ascii.eqb c "010" || Ascii.eqb c "013".

Definition atomMatches (a : Atom) (c : ascii) : bool :=
  match a with
  | Char p => Ascii.eqb (canonicalize p) (canonicalize c)
  | AnyChar => negb (isLineTerminator c)
  end.

Fixpoint matchHere (atoms : list Atom) (s : string) : bool :=
  match atoms, s with
  | [], _ => true
  | _ :: _, EmptyString => false
  | a :: atoms', String c s' => atomMatches a c && matchHere atoms' s'
  end.

(** An unanchored pattern matches when it matches at some position. *)
Fixpoint test (atoms : list Atom) (s : string) : bool :=
  matchHere atoms s
  || match s with
     | EmptyString => false
     | String _ s' => test atoms s'
     end.





(** ** The Ingredient model (ingredientModel.ts) *)

Module Ingredient.

Record Rating := mkRating {
  species : Species;
  healthRating : option Z;   (* [None] is [null] *)
  notes : option string }.

Record IngredientEntry := mkEntry {
  id : nat;
  name : string;
  ratings : list Rating }.

Definition Collection := list IngredientEntry.

(** *** IngredientModel: what the class asks of the store *)

Definition hasId (i : nat) (doc : IngredientEntry) : bool := id doc =? i.

Definition hasName (n : string) (doc : IngredientEntry) : bool :=
  String.eqb (name doc) n.

(** [IngredientModel.findOne({ name })] *)
Definition findOne (n : string) : M Collection (option IngredientEntry) :=
  gets (List.find (hasName n)).

(** [IngredientModel.findById(id)] *)
Definition findById (i : nat) : M Collection (option IngredientEntry) :=
  gets (List.find (hasId i)).

Definition freshId (docs : Collection) : nat := S (list_max (map id docs)).

(** [new IngredientModel({ name, ratings }).save()]. The schema has
    [name: { type: String, required: true }]: validation refuses a document
    whose name is the empty string and [save] rejects without storing it. *)
Definition create (n : string) (rs : list Rating)
  : M Collection IngredientEntry :=
  fun docs =>
    if String.eqb n "" then (Throw ValidationError, docs)
    else
      let doc := mkEntry (freshId docs) n rs in
      (Ok doc, docs ++ [doc]).

Fixpoint replace (doc : IngredientEntry) (docs : Collection) : Collection :=
  match docs with
  | [] => []
  | d :: rest =>
      if hasId (id doc) d then doc :: rest else d :: replace doc rest
  end.

(** [doc.save()] of a document read from the store *)
Definition save (doc : IngredientEntry) : M Collection IngredientEntry :=
  fun docs => (Ok doc, replace doc docs).

Fixpoint remove (i : nat) (docs : Collection) : Collection :=
  match docs with
  | [] => []
  | d :: rest => if hasId i d then rest else d :: remove i rest
  end.

(** [IngredientModel.findByIdAndDelete(id)] *)
Definition findByIdAndDelete (i : nat)
  : M Collection (option IngredientEntry) :=
  fun docs => (Ok (List.find (hasId i) docs), remove i docs).

(** *** Queries of [IngredientModel.find] *)

Inductive RatingCondition :=
| EqNull               (* [{ $eq: null }] *)
| EqTo (r : Z)         (* [rating] *)
| Gte (r : Z)          (* [{ $gte: minRating }] *)
| Lte (r : Z).         (* [{ $lte: maxRating }] *)

(** The [query] object: one slot per key the code may assign. *)
Record Query := mkQuery {
  q_name : option (list Atom);                  (* [query.name] *)
  q_species : option Species;                   (* ['ratings.species'] *)
  q_healthRating : option RatingCondition }.    (* ['ratings.healthRating'] *)

Definition emptyQuery : Query := mkQuery None None None.

Definition set_name (v : list Atom) (q : Query) : Query :=
  mkQuery (Some v) (q_species q) (q_healthRating q).
Definition set_species (v : Species) (q : Query) : Query :=
  mkQuery (q_name q) (Some v) (q_healthRating q).
Definition set_healthRating (v : RatingCondition) (q : Query) : Query :=
  mkQuery (q_name q) (q_species q) (Some v).

Definition ratingSatisfies (c : RatingCondition) (r : Rating) : bool :=
  match c, healthRating r with
  | EqNull, None => true
  | EqNull, Some _ => false
  | EqTo v, Some h => (h =? v)%Z
  | Gte v, Some h => (v <=? h)%Z
  | Lte v, Some h => (h <=? v)%Z
  | _, None => false
  end.

(** A condition on a path through the [ratings] array holds when one
    element meets it; [null] is also met by an array without elements. *)
Definition healthRatingMatches (c : RatingCondition) (rs : list Rating)
  : bool :=
  existsb (ratingSatisfies c) rs
  || match c, rs with
     | EqNull, [] => true
     | _, _ => false
     end.

Definition whenSet {A} (slot : option A) (p : A -> bool) : bool :=
  match slot with
  | None => true
  | Some v => p v
  end.

Definition matches (q : Query) (doc : IngredientEntry) : bool :=
  whenSet (q_name q) (fun atoms => test atoms (name doc))
  && whenSet (q_species q)
       (fun sp => existsb (fun r => Species_eqb (species r) sp)
                    (ratings doc))
  && whenSet (q_healthRating q)
       (fun c => healthRatingMatches c (ratings doc)).

(** *** The static methods *)

(** [Ingredient.add(name, ratings)] *)
Definition add (n : string) (rs : option (list Rating))
  : M Collection unit :=
  existing <- findOne n ;;
  match existing with
  | Some _ => throw AlreadyExists
  | None => create n (orElse rs []) ;;; ret tt
  end.

Module FilterOptions.
Record t := make {
  id : option nat;          (* [None]: left out, or the empty string *)
  name : option string;
  species : option Species;
  rating : Optional Z;
  minRating : option Z;
  maxRating : option Z }.
End FilterOptions.

Inductive Found :=
| One (doc : option IngredientEntry)      (* result of [findById] *)
| Many (docs : list IngredientEntry).     (* result of [find] *)

(** Lines 144-157 of [find]: the query built from the filters, once the
    regular expression [re] of the name filter is at hand. *)
Definition buildQuery (re : option (list Atom)) (f : FilterOptions.t)
  : Query :=
  let query := emptyQuery in
  let query :=
    match re with
    | Some atoms => set_name atoms query
    | None => query
    end in
  let query :=
    match FilterOptions.species f with
    | Some sp => set_species sp query
    | None => query
    end in
  match FilterOptions.rating f with
  | null => set_healthRating EqNull query
  | given r => set_healthRating (EqTo r) query
  | undefined =>
      let query :=
        match FilterOptions.minRating f with
        | Some lo => set_healthRating (Gte lo) query
        | None => query
        end in
      let query :=
        match FilterOptions.maxRating f with
        | Some hi => set_healthRating (Lte hi) query
        | None => query
        end in
      query
  end.

(** [Ingredient.find(filters)]. The result is [None] only when the name
    filter is a pattern outside the fragment of [RegExp]. *)
Definition find (f : FilterOptions.t) (docs : Collection)
  : option (Result Found) :=
  match FilterOptions.id f with
  | Some i => Some (Ok (One (List.find (hasId i) docs)))
  | None =>
      match FilterOptions.name f with
      | None =>
          Some (Ok (Many (filter (matches (buildQuery None f)) docs)))
      | Some n =>
          match RegExp n with
          | Pattern atoms =>
              Some (Ok (Many
                (filter (matches (buildQuery (Some atoms) f)) docs)))
          | Invalid => Some (Throw InvalidRegExp)
          | Beyond => None
          end
      end
  end.

Definition isFor (sp : Species) (r : Rating) : bool :=
  Species_eqb (species r) sp.

(** [Object.assign(existingRating, update)] on the first rating of the
    species: only the fields that were passed are overwritten. *)
Definition assign (h : Optional Z) (n : Optional string) (r : Rating)
  : Rating :=
  mkRating (species r)
    (match h with undefined => healthRating r | _ => orNull h end)
    (match n with undefined => notes r | _ => orNull n end).

Fixpoint assignFirst (sp : Species) (h : Optional Z) (n : Optional string)
  (rs : list Rating) : list Rating :=
  match rs with
  | [] => []
  | r :: rest =>
      if isFor sp r then assign h n r :: rest
      else r :: assignFirst sp h n rest
  end.

Definition withRatings (doc : IngredientEntry) (rs : list Rating)
  : IngredientEntry :=
  mkEntry (id doc) (name doc) rs.

(** [Ingredient.push(name, species, healthRating?, notes?)] *)
Definition push (n : string) (sp : Species)
  (h : Optional Z) (nt : Optional string) : M Collection IngredientEntry :=
  ingredient <- findOne n ;;
  match ingredient with
  | None => create n [mkRating sp (orNull h) (orNull nt)]
  | Some ingredient =>
      match List.find (isFor sp) (ratings ingredient) with
      | Some _ =>
          save (withRatings ingredient
                  (assignFirst sp h nt (ratings ingredient)))
      | None =>
          save (withRatings ingredient
                  (ratings ingredient
                     ++ [mkRating sp (orNull h) (orNull nt)]))
      end
  end.

Record PushEntry := mkPush {
  p_name : string;
  p_species : Species;
  p_healthRating : Optional Z;
  p_notes : Optional string }.

Inductive PushManyArg :=
| Entries (ingredients : list PushEntry)
| Names (names : list string) (sp : Species).

(** [Ingredient.pushMany(ingredients)]: the array of promises, one per
    [push], in the order of the input; each promise is given by the
    arguments of its [push]. All of them are started by the [map], none is
    awaited here. *)
Definition pushMany (arg : PushManyArg) : list PushEntry :=
  match arg with
  | Entries ingredients => ingredients
  | Names names sp => map (fun n => mkPush n sp undefined undefined) names
  end.

(** What a [push] goes on to do once its [findOne] is answered. *)
Inductive Step :=
| Create (n : string) (r : Rating)
    (* no ingredient: [new IngredientModel(...).save()] *)
| SaveAssigned (ingredient : IngredientEntry) (rs : list Rating)
    (* a rating found: [Object.assign], [markModified('ratings')], [save] *)
| SavePushed (ingredient : IngredientEntry) (r : Rating).
    (* no rating found: [ratings.push(...)], [save] *)

(** The first half of [push]: from the call to the answer of [findOne],
    read from the collection [docs]. *)
Definition started (p : PushEntry) (docs : Collection) : Step :=
  match List.find (hasName (p_name p)) docs with
  | None =>
      Create (p_name p)
        (mkRating (p_species p) (orNull (p_healthRating p))
           (orNull (p_notes p)))
  | Some ingredient =>
      match List.find (isFor (p_species p)) (ratings ingredient) with
      | Some _ =>
          SaveAssigned ingredient
            (assignFirst (p_species p) (p_healthRating p) (p_notes p)
               (ratings ingredient))
      | None =>
          SavePushed ingredient
            (mkRating (p_species p) (orNull (p_healthRating p))
               (orNull (p_notes p)))
      end
  end.

(** [$set: { ratings }] on the stored document of an id *)
Fixpoint setRatings (i : nat) (rs : list Rating) (docs : Collection)
  : Collection :=
  match docs with
  | [] => []
  | d :: rest =>
      if hasId i d then withRatings d rs :: rest
      else d :: setRatings i rs rest
  end.

(** [$push: { ratings }] on the stored document of an id *)
Fixpoint pushRating (i : nat) (r : Rating) (docs : Collection)
  : Collection :=
  match docs with
  | [] => []
  | d :: rest =>
      if hasId i d then withRatings d (ratings d ++ [r]) :: rest
      else d :: pushRating i r rest
  end.

(** The promises of one [pushMany] on their way: the errors they have
    rejected with, the ids of the documents they have written, and the
    collection. *)
Record Batch := mkBatch {
  rejections : list Error;
  written : list nat;
  stored : Collection }.

(** The second half of a [push] that runs beside others: its [save].
    - A new document is validated, then inserted.
    - A document whose [ratings] were marked modified is sent as a whole
      array, guarded by the version it was read at: when another promise of
      the batch has written the document since, the [save] rejects with
      [VersionError] and writes nothing.
    - A rating pushed on the array is sent as a push on the stored array,
      whatever has been written since. *)
Definition finish (b : Batch) (st : Step) : Batch :=
  match st with
  | Create n r =>
      if String.eqb n ""
      then mkBatch (rejections b ++ [ValidationError]) (written b)
             (stored b)
      else mkBatch (rejections b) (written b)
             (stored b ++ [mkEntry (freshId (stored b)) n [r]])
  | SaveAssigned ingredient rs =>
      if existsb (Nat.eqb (id ingredient)) (written b)
      then mkBatch (rejections b ++ [VersionError]) (written b) (stored b)
      else mkBatch (rejections b) (id ingredient :: written b)
             (setRatings (id ingredient) rs (stored b))
  | SavePushed ingredient r =>
      mkBatch (rejections b) (id ingredient :: written b)
        (pushRating (id ingredient) r (stored b))
  end.

(** The promises of a [pushMany] left to run together. The [map] starts
    every [push] before any answer comes back: each [findOne] is answered
    from the collection as it is when [pushMany] is called; the saves then
    reach the store in the order of the list. *)
Definition settleAll (promises : list PushEntry) (docs : Collection)
  : Batch :=
  fold_left finish (map (fun p => started p docs) promises)
    (mkBatch [] [] docs).

(** The collection once the promises have settled *)
Definition settle (promises : list PushEntry) (docs : Collection)
  : Collection :=
  stored (settleAll promises docs).

(** The errors the promises have rejected with. Nothing awaits or catches
    them: each is an unhandled rejection, on which Node ends the process. *)
Definition rejected (promises : list PushEntry) (docs : Collection)
  : list Error :=
  rejections (settleAll promises docs).

(** The same calls made by a caller that awaits each [push] before it
    makes the next. *)
Fixpoint oneByOne (promises : list PushEntry) (docs : Collection)
  : Collection :=
  match promises with
  | [] => docs
  | p :: rest =>
      oneByOne rest
        (snd (push (p_name p) (p_species p) (p_healthRating p) (p_notes p)
                docs))
  end.

(** The [forEach] of [mergeDuplicates]: a rating of the duplicate is
    pushed unless the primary, as it stands by then, rates the species. *)
Definition mergeRatings (primary duplicate : list Rating) : list Rating :=
  fold_left
    (fun acc dr =>
       if existsb (fun pr => Species_eqb (species pr) (species dr)) acc
       then acc
       else acc ++ [dr])
    duplicate primary.

(** [Ingredient.mergeDuplicates(primaryId, duplicateId)] *)
Definition mergeDuplicates (primaryId duplicateId : nat)
  : M Collection IngredientEntry :=
  primary <- findById primaryId ;;
  duplicate <- findById duplicateId ;;
  match primary, duplicate with
  | Some primary, Some duplicate =>
      let primary :=
        withRatings primary
          (mergeRatings (ratings primary) (ratings duplicate)) in
      save primary ;;;
      findByIdAndDelete duplicateId ;;;
      ret primary
  | _, _ => throw NotFound
  end.

(** [Ingredient.delete(id)] *)
Definition delete (i : nat) : M Collection IngredientEntry :=
  ingredient <- findByIdAndDelete i ;;
  match ingredient with
  | None => throw NotFound
  | Some ingredient => ret ingredient
  end.

(** *** The remaining static methods *)

Module Instance.
(** An instance of the class, as its private constructor builds it: one
    ingredient with its rating for one species. *)
Record t := make {
  id : nat;
  name : string;
  species : Species;
  healthRating : option Z;
  notes : option string }.
End Instance.

(** [Ingredient.getOne(ingredient, species)]. The method reads its argument
    only, so it is a function of the argument. *)
Definition getOne (ingredient : IngredientEntry) (sp : Species)
  : Result Instance.t :=
  match List.find (isFor sp) (ratings ingredient) with
  | None => Throw RatingNotFound
  | Some r =>
      Ok (Instance.make (id ingredient) (name ingredient) (species r)
            (healthRating r) (notes r))
  end.

(** [Ingredient.getAll(ingredients, species)]: the loop with its
    [try]/[catch]. *)
Fixpoint getAll (ingredients : list IngredientEntry) (sp : Species)
  : list Instance.t :=
  match ingredients with
  | [] => []
  | ingredient :: rest =>
      match getOne ingredient sp with
      | Ok fetched => fetched :: getAll rest sp
      | Throw _ => getAll rest sp
      end
  end.

Module Updates.
Record t := make {
  name : option string;
  ratings : option (list Rating) }.
End Updates.

Definition applyUpdate (u : Updates.t) (doc : IngredientEntry)
  : IngredientEntry :=
  mkEntry (id doc)
    (orElse (Updates.name u) (name doc))
    (orElse (Updates.ratings u) (ratings doc)).

(** [IngredientModel.findByIdAndUpdate(id, update, { new: true })] *)
Definition findByIdAndUpdate (i : nat) (u : Updates.t)
  : M Collection (option IngredientEntry) :=
  fun docs =>
    match List.find (hasId i) docs with
    | None => (Ok None, docs)
    | Some doc =>
        let doc := applyUpdate u doc in
        (Ok (Some doc), replace doc docs)
    end.

(** [Ingredient.update(id, updates)] *)
Definition update (i : nat) (updates : Updates.t)
  : M Collection (option IngredientEntry) :=
  ingredient <- findById i ;;
  match ingredient with
  | None => throw NotFound
  | Some _ =>
      match Updates.name updates, Updates.ratings updates with
      | None, None => throw NoUpdatesProvided
      | _, _ => findByIdAndUpdate i updates
      end
  end.

(** [Ingredient.addRating(id, { species, healthRating, notes })] *)
Definition addRating (i : nat) (sp : Species)
  (h : Optional Z) (nt : Optional string)
  : M Collection (option IngredientEntry) :=
  ingredient <- findById i ;;
  match ingredient with
  | None => throw NotFound
  | Some ingredient =>
      if existsb (isFor sp) (ratings ingredient)
      then throw RatingAlreadyExists
      else
        save (withRatings ingredient
                (ratings ingredient
                   ++ [mkRating sp (orNull h) (orNull nt)])) ;;;
        findById i
  end.

(** [Ingredient.updateRating(id, species, { healthRating, notes })] *)
Definition updateRating (i : nat) (sp : Species)
  (h : Optional Z) (nt : Optional string) : M Collection IngredientEntry :=
  ingredient <- findById i ;;
  match ingredient with
  | None => throw NotFound
  | Some ingredient =>
      match List.find (isFor sp) (ratings ingredient) with
      | None => throw RatingNotFound
      | Some _ =>
          match h, nt with
          | undefined, undefined => throw NoUpdatesProvided
          | _, _ =>
              save (withRatings ingredient
                      (assignFirst sp h nt (ratings ingredient)))
          end
      end
  end.

(** [ratings.splice(ratingIndex, 1)] at the index of the first rating of the
    species *)
Fixpoint spliceFirst (sp : Species) (rs : list Rating) : list Rating :=
  match rs with
  | [] => []
  | r :: rest => if isFor sp r then rest else r :: spliceFirst sp rest
  end.

(** [Ingredient.removeRating(id, species)] *)
Definition removeRating (i : nat) (sp : Species)
  : M Collection IngredientEntry :=
  ingredient <- findById i ;;
  match ingredient with
  | None => throw NotFound
  | Some ingredient =>
      match List.find (isFor sp) (ratings ingredient) with
      | None => throw RatingNotFound
      | Some _ =>
          save (withRatings ingredient
                  (spliceFirst sp (ratings ingredient)))
      end
  end.

End Ingredient.

(** ** The Product model (productModel.ts) *)

Module Product.

Record Size := mkSize {
  packaging : string;
  price : Q;
  count : Q;
  unit : Unit;
  links : list string;
  imageUrls : list string }.

Record FeedingRow := mkFeedingRow {
  minAge : Q;
  maxAge : Q;
  minWeight : Q;
  maxWeight : Q;
  minServing : Q;
  maxServing : Q }.

Record ProductEntry := mkEntry {
  id : nat;
  brand : string;
  flavor : string;
  species : Species;
  lifeStage : LifeStage;
  foodType : FoodType;
  ingredients : list string;
  sizes : list Size;
  feedingChart : list FeedingRow }.

(** Both collections of the database: a product write reaches the
    ingredient collection through [Ingredient.pushMany]. *)
Record Store := mkStore {
  products : list ProductEntry;
  ingredientStore : Ingredient.Collection }.

Definition withProducts (f : list ProductEntry -> list ProductEntry)
  (s : Store) : Store :=
  mkStore (f (products s)) (ingredientStore s).

Definition withIngredients
  (f : Ingredient.Collection -> Ingredient.Collection) (s : Store) : Store :=
  mkStore (products s) (f (ingredientStore s)).

(** *** ProductModel: what the class asks of the store *)

Definition hasId (i : nat) (doc : ProductEntry) : bool := id doc =? i.

(** The filter [{ brand, flavor, species, lifeStage, foodType }] *)
Definition hasKey (b f : string) (sp : Species) (ls : LifeStage)
  (ft : FoodType) (doc : ProductEntry) : bool :=
  String.eqb (brand doc) b
  && String.eqb (flavor doc) f
  && Species_eqb (species doc) sp
  && LifeStage_eqb (lifeStage doc) ls
  && FoodType_eqb (foodType doc) ft.

(** [ProductModel.findOne({ brand, flavor, species, lifeStage, foodType })] *)
Definition findOne (b f : string) (sp : Species) (ls : LifeStage)
  (ft : FoodType) : M Store (option ProductEntry) :=
  gets (fun s => List.find (hasKey b f sp ls ft) (products s)).

(** [ProductModel.findById(id)] *)
Definition findById (i : nat) : M Store (option ProductEntry) :=
  gets (fun s => List.find (hasId i) (products s)).

Definition freshId (docs : list ProductEntry) : nat :=
  S (list_max (map id docs)).

(** [new ProductModel({ ... }).save()] *)
Definition create (b f : string) (sp : Species) (ls : LifeStage)
  (ft : FoodType) (ings : list string) (szs : list Size)
  (chart : list FeedingRow) : M Store ProductEntry :=
  fun s =>
    let doc :=
      mkEntry (freshId (products s)) b f sp ls ft ings szs chart in
    (Ok doc, withProducts (fun docs => docs ++ [doc]) s).

Fixpoint replace (doc : ProductEntry) (docs : list ProductEntry)
  : list ProductEntry :=
  match docs with
  | [] => []
  | d :: rest =>
      if hasId (id doc) d then doc :: rest else d :: replace doc rest
  end.

(** [product.save()] of a document read from the store *)
Definition save (doc : ProductEntry) : M Store ProductEntry :=
  fun s => (Ok doc, withProducts (replace doc) s).

(** A call of [Ingredient.pushMany] that is neither awaited nor caught: its
    promises run together against the ingredient collection
    ([Ingredient.settle]) and nothing they return comes back to the caller,
    which goes on. What they reject with is not handled by anyone
    ([unhandled] below). *)
Definition unawaited (promises : list Ingredient.PushEntry)
  : M Store Datatypes.unit :=
  modify (withIngredients (Ingredient.settle promises)).

(** The unhandled rejections a call [add(..., species, ..., ingredients,
    ...)] leaves behind when it gets as far as [pushMany]: each of them
    ends the Node process, after [add] has fired the pushes. The store of
    the model is what the pushes have written; it does not say whether the
    process lives on. *)
Definition unhandled (ings : list string) (sp : Species) (s : Store)
  : list Error :=
  Ingredient.rejected (Ingredient.pushMany (Ingredient.Names ings sp))
    (ingredientStore s).

(** *** Queries of [ProductModel.find] *)

Record Query := mkQuery {
  q_brand : option string;
  q_flavor : option string;
  q_species : option Species;
  q_lifeStage : option (list LifeStage);     (* [{ $in: [...] }] *)
  q_foodType : option FoodType }.

Definition emptyQuery : Query := mkQuery None None None None None.

Definition whenSet {A} (slot : option A) (p : A -> bool) : bool :=
  match slot with
  | None => true
  | Some v => p v
  end.

Definition matches (q : Query) (doc : ProductEntry) : bool :=
  whenSet (q_brand q) (String.eqb (brand doc))
  && whenSet (q_flavor q) (String.eqb (flavor doc))
  && whenSet (q_species q) (Species_eqb (species doc))
  && whenSet (q_lifeStage q) (existsb (LifeStage_eqb (lifeStage doc)))
  && whenSet (q_foodType q) (FoodType_eqb (foodType doc)).

Module FilterOptions.
Record t := make {
  id : option nat;          (* [None]: left out, or the empty string *)
  brand : option string;
  flavor : option string;
  species : option Species;
  lifeStage : option LifeStage;
  foodType : option FoodType }.
End FilterOptions.

Inductive Found :=
| One (doc : option ProductEntry)      (* result of [findById] *)
| Many (docs : list ProductEntry).     (* result of [find] *)

(** The [query] object both versions of [find] build from the filters. *)
Definition buildQuery (f : FilterOptions.t) : Query :=
  mkQuery
    (FilterOptions.brand f)
    (FilterOptions.flavor f)
    (FilterOptions.species f)
    (match FilterOptions.lifeStage f with
     | Some ls => Some [ls; all]
     | None => None
     end)
    (FilterOptions.foodType f).

(** *** The static methods *)

(** [Product.add(brand, flavor, species, lifeStage, foodType, ingredients,
    sizes, feedingChart)] *)
Definition add (b f : string) (sp : Species) (ls : LifeStage)
  (ft : FoodType) (ings : list string) (szs : list Size)
  (chart : list FeedingRow) : M Store ProductEntry :=
  existingProduct <- findOne b f sp ls ft ;;
  match existingProduct with
  | Some _ => throw AlreadyExists
  | None =>
      unawaited (Ingredient.pushMany (Ingredient.Names ings sp)) ;;;
      create b f sp ls ft ings szs chart
  end.

(** [Product.find(filters)]: the query is built (and logged), and
    [ProductModel.find] is then called without it. *)
Definition find (filters : FilterOptions.t) (s : Store) : Found :=
  match FilterOptions.id filters with
  | Some i => One (List.find (hasId i) (products s))
  | None =>
      let query := buildQuery filters in
      Many (filter (matches emptyQuery) (products s))
  end.

(** [Product.find] as server/models/productModel.ts has it: the same
    query, handed to [ProductModel.find]. *)
Definition find_with_query (filters : FilterOptions.t) (s : Store)
  : Found :=
  match FilterOptions.id filters with
  | Some i => One (List.find (hasId i) (products s))
  | None =>
      let query := buildQuery filters in
      Many (filter (matches query) (products s))
  end.

Module Updates.
Record t := make {
  brand : option string;
  flavor : option string;
  species : option Species;
  lifeStage : option LifeStage;
  foodType : option FoodType;
  ingredients : option (list string);
  sizes : option (list Size);
  feedingChart : option (list FeedingRow) }.
End Updates.

Definition isSet {A} (v : option A) : bool :=
  match v with
  | Some _ => true
  | None => false
  end.

(** [Object.keys(update).length === 0] *)
Definition noKeys (u : Updates.t) : bool :=
  negb (isSet (Updates.brand u) || isSet (Updates.flavor u)
        || isSet (Updates.species u) || isSet (Updates.lifeStage u)
        || isSet (Updates.foodType u) || isSet (Updates.ingredients u)
        || isSet (Updates.sizes u) || isSet (Updates.feedingChart u)).

Definition applyUpdate (u : Updates.t) (doc : ProductEntry)
  : ProductEntry :=
  mkEntry (id doc)
    (orElse (Updates.brand u) (brand doc))
    (orElse (Updates.flavor u) (flavor doc))
    (orElse (Updates.species u) (species doc))
    (orElse (Updates.lifeStage u) (lifeStage doc))
    (orElse (Updates.foodType u) (foodType doc))
    (orElse (Updates.ingredients u) (ingredients doc))
    (orElse (Updates.sizes u) (sizes doc))
    (orElse (Updates.feedingChart u) (feedingChart doc)).

(** [ProductModel.findByIdAndUpdate(id, update, { new: true })] *)
Definition findByIdAndUpdate (i : nat) (u : Updates.t)
  : M Store (option ProductEntry) :=
  fun s =>
    match List.find (hasId i) (products s) with
    | None => (Ok None, s)
    | Some doc =>
        let doc := applyUpdate u doc in
        (Ok (Some doc), withProducts (replace doc) s)
    end.

(** [Product.update(id, updates)]: the [update] object takes every field
    of [updates] that is not [undefined]; the branch for [ingredients]
    assigns the field and holds nothing but a comment after that. *)
Definition update (i : nat) (updates : Updates.t)
  : M Store (option ProductEntry) :=
  product <- findById i ;;
  match product with
  | None => throw NotFound
  | Some _ =>
      let update := updates in
      if noKeys update then throw NoUpdatesProvided
      else findByIdAndUpdate i update
  end.

Module SizeDetails.
(** The [size] argument of [addSize] as it arrives: any field may be
    missing. *)
Record t := make {
  packaging : option string;
  price : option Q;
  count : option Q;
  unit : option Unit;
  links : option (list string);
  imageUrls : option (list string) }.
End SizeDetails.

(** The value of a string field when [!field] is false. *)
Definition truthyString (v : option string) : option string :=
  match v with
  | Some s => if String.eqb s "" then None else Some s
  | None => None
  end.

(** The value of a number field when [!field] is false. *)
Definition truthyNumber (v : option Q) : option Q :=
  match v with
  | Some q => if Qeq_bool q 0 then None else Some q
  | None => None
  end.

Definition withSizes (doc : ProductEntry) (szs : list Size)
  : ProductEntry :=
  mkEntry (id doc) (brand doc) (flavor doc) (species doc) (lifeStage doc)
    (foodType doc) (ingredients doc) szs (feedingChart doc).

(** [Product.addSize(productId, size)] *)
Definition addSize (productId : nat) (size : SizeDetails.t)
  : M Store ProductEntry :=
  product <- findById productId ;;
  match product with
  | None => throw NotFound
  | Some product =>
      match truthyString (SizeDetails.packaging size),
            truthyNumber (SizeDetails.price size),
            truthyNumber (SizeDetails.count size),
            SizeDetails.unit size with
      | Some pk, Some pr, Some ct, Some u =>
          save (withSizes product
                  (sizes product
                     ++ [mkSize pk pr ct u
                           (orElse (SizeDetails.links size) [])
                           (orElse (SizeDetails.imageUrls size) [])]))
      | _, _, _, _ => throw IncompleteSizeDetails
      end
  end.

Fixpoint remove (i : nat) (docs : list ProductEntry) : list ProductEntry :=
  match docs with
  | [] => []
  | d :: rest => if hasId i d then rest else d :: remove i rest
  end.

(** [ProductModel.findByIdAndDelete(id)] *)
Definition findByIdAndDelete (i : nat) : M Store (option ProductEntry) :=
  fun s => (Ok (List.find (hasId i) (products s)), withProducts (remove i) s).

(** [Product.delete(id)] *)
Definition delete (i : nat) : M Store ProductEntry :=
  deletedProduct <- findByIdAndDelete i ;;
  match deletedProduct with
  | None => throw NotFound
  | Some deletedProduct => ret deletedProduct
  end.

(** The text of the errors the class throws *)
Definition message (e : Error) : string :=
  match e with
  | AlreadyExists => "Product already exists"
  | NotFound => "Product not found"
  | NoUpdatesProvided => "No updates provided"
  | IncompleteSizeDetails => "Incomplete size details"
  | SizeNotFound => "Size not found"
  | _ => ""      (* thrown by no method of the class *)
  end.

End Product.

(** ** The products route (routes/apis/products.ts) *)

Module Routes.

(** [req.body] of a POST *)
Record Body := mkBody {
  brand : string;
  flavor : string;
  species : Species;
  lifeStage : LifeStage;
  foodType : FoodType;
  ingredients : list string;
  sizes : list Product.Size;
  feedingChart : list Product.FeedingRow }.

Inductive Json :=
| ProductJson (product : Product.ProductEntry)     (* [res.json(product)] *)
| ErrorJson (error : string).                      (* [{ error: message }] *)

Record Response := mkResponse {
  status : nat;
  json : Json }.

(** [router.post('/', ...)] *)
Definition post (body : Body) (s : Product.Store)
  : Response * Product.Store :=
  match Product.add (brand body) (flavor body) (species body)
          (lifeStage body) (foodType body) (ingredients body) (sizes body)
          (feedingChart body) s with
  | (Ok product, s') => (mkResponse 201 (ProductJson product), s')
  | (Throw err, s') => (mkResponse 400 (ErrorJson (Product.message err)), s')
  end.

End Routes.

(** ** The wording of the specification

    What the sentences of the specification say, written out for
    comparison with the code above. *)



(** The ratings of a list that come first for their species. *)
Fixpoint firstPerSpecies (rs : list Ingredient.Rating)
  : list Ingredient.Rating :=
  match rs with
  | [] => []
  | r :: rest =>
      r :: filter (fun x => negb (Ingredient.isFor (Ingredient.species r) x))
             (firstPerSpecies rest)
  end.

(** "the five-field natural key already has a match" *)
Definition keyTaken (b f : string) (sp : Species) (ls : LifeStage)
  (ft : FoodType) (s : Product.Store) : Prop :=
  exists p, In p (Product.products s)
    /\ Product.brand p = b /\ Product.flavor p = f /\ Product.species p = sp
    /\ Product.lifeStage p = ls /\ Product.foodType p = ft.

(** "products whose stored lifeStage equals the filter value OR equals all" *)
Definition passesLifeStage (ls : LifeStage) (p : Product.ProductEntry)
  : bool :=
  LifeStage_eqb (Product.lifeStage p) ls
  || LifeStage_eqb (Product.lifeStage p) all.

(** "every ingredient name referenced by any product has at least a
    placeholder entry": an ingredient of that name with a rating for the
    species. *)
Definition registered (n : string) (sp : Species)
  (docs : Ingredient.Collection) : Prop :=
  exists doc, In doc docs
    /\ Ingredient.name doc = n
    /\ existsb (Ingredient.isFor sp) (Ingredient.ratings doc) = true.

(** Every entry of the collection rates a species at most once. *)
Definition ratedOnce (docs : Ingredient.Collection) : Prop :=
  Forall (fun doc => NoDup (map Ingredient.species (Ingredient.ratings doc)))
    docs.

(** The five fields [Product.add] looks a product up by. *)
Definition productKey (p : Product.ProductEntry)
  : string * string * Species * LifeStage * FoodType :=
  (Product.brand p, Product.flavor p, Product.species p,
   Product.lifeStage p, Product.foodType p).

(** The first ingredient of a name is rated for a species: what a
    [push(name, species)] without values finds and leaves alone. *)
Definition settled (n : string) (sp : Species)
  (docs : Ingredient.Collection) : Prop :=
  exists ingredient,
    List.find (Ingredient.hasName n) docs = Some ingredient
    /\ existsb (Ingredient.isFor sp) (Ingredient.ratings ingredient) = true.

(** ** Sample data *)

Module Samples.

Definition beef : Ingredient.IngredientEntry :=
  Ingredient.mkEntry 1 "Beef" [Ingredient.mkRating cat (Some (-3)%Z) None].
Definition rice : Ingredient.IngredientEntry :=
  Ingredient.mkEntry 2 "Rice" [Ingredient.mkRating cat (Some 3%Z) None].
Definition corn : Ingredient.IngredientEntry :=
  Ingredient.mkEntry 3 "Corn" [Ingredient.mkRating dog (Some 9%Z) None].
Definition chicken : Ingredient.IngredientEntry :=
  Ingredient.mkEntry 4 "Chicken" [Ingredient.mkRating cat None None].

Definition pantry : Ingredient.Collection := [beef; rice; corn; chicken].


Definition between (lo hi : Z) : Ingredient.FilterOptions.t :=
  Ingredient.FilterOptions.make None None None undefined (Some lo)
    (Some hi).

Definition kibble (i : nat) (ls : LifeStage) : Product.ProductEntry :=
  Product.mkEntry i "Acme" "Salmon" cat ls dry ["Salmon"; "Rice"] [] [].

Definition shelf : Product.Store :=
  Product.mkStore [kibble 1 adult; kibble 2 young; kibble 3 all] [].

(** Filter of [Product.find] *)
Definition byLifeStage (ls : LifeStage) : Product.FilterOptions.t :=
  Product.FilterOptions.make None None None None (Some ls) None.

(** An update that replaces the ingredient list and nothing else *)
Definition newIngredients (names : list string) : Product.Updates.t :=
  Product.Updates.make None None None None None (Some names) None None.

(** Sizes as they arrive at [addSize] *)
Definition bag (price : option Q) : Product.SizeDetails.t :=
  Product.SizeDetails.make (Some "bag") price (Some 4%Q) (Some lb)
    None None.

End Samples.

(** * Properties *)

(** ** Lists *)

Section Lists.
Context {A : Type}.
Implicit Types (P : A -> bool) (l : list A).

Lemma find_app_none P l l' :
  List.find P l = None -> List.find P (l ++ l') = List.find P l'.
Proof.
  induction l as [|x l IH]; simpl; [reflexivity|].
  destruct (P x); [discriminate|exact IH].
Qed.


Lemma filter_andb (a b : A -> bool) l :
  filter (fun x => a x && b x) l = filter a (filter b l).
Proof.
  induction l as [|x l IH]; simpl; [reflexivity|].
  destruct (b x); simpl.
  - destruct (a x); simpl; now rewrite IH.
  - now rewrite andb_false_r.
Qed.

Lemma filter_all_true P l :
  (forall x, In x l -> P x = true) -> filter P l = l.
Proof.
  induction l as [|x l IH]; simpl; intros H; [reflexivity|].
  rewrite (H x) by tauto. rewrite IH; [reflexivity|].
  intros y Hy. apply H. tauto.
Qed.

Lemma NoDup_snoc l (x : A) : NoDup l -> ~ In x l -> NoDup (l ++ [x]).
Proof.
  induction l as [|y l IH]; simpl; intros Hnd Hx.
  - constructor; [tauto|constructor].
  - inversion Hnd as [|? ? Hy Hnd']; subst. constructor.
    + rewrite in_app_iff. simpl. intuition congruence.
    + apply IH; tauto.
Qed.

End Lists.

(** ** Enumerations *)

Lemma Species_eqb_eq (a b : Species) : Species_eqb a b = true <-> a = b.
Proof. destruct a, b; simpl; split; congruence. Qed.

Lemma Species_eqb_refl (a : Species) : Species_eqb a a = true.
Proof. now destruct a. Qed.

Lemma LifeStage_eqb_eq (a b : LifeStage) : LifeStage_eqb a b = true <-> a = b.
Proof. destruct a, b; simpl; split; congruence. Qed.

Lemma FoodType_eqb_eq (a b : FoodType) : FoodType_eqb a b = true <-> a = b.
Proof. destruct a, b; simpl; split; congruence. Qed.

(** ** The ingredient collection *)

Section IngredientStore.
Import Ingredient.

Implicit Types (docs : Collection) (doc p d : IngredientEntry).

Lemma hasId_true i doc : hasId i doc = true <-> id doc = i.
Proof. unfold hasId. apply Nat.eqb_eq. Qed.

Lemma hasName_true n doc : hasName n doc = true <-> name doc = n.
Proof. unfold hasName. apply String.eqb_eq. Qed.

Lemma findById_id i docs doc :
  List.find (hasId i) docs = Some doc -> id doc = i.
Proof. intros H. apply find_some in H. now apply hasId_true. Qed.

Lemma find_hasId_absent i docs :
  ~ In i (map id docs) -> List.find (hasId i) docs = None.
Proof.
  induction docs as [|d docs IH]; simpl; intros H; [reflexivity|].
  destruct (hasId i d) eqn:E.
  - apply hasId_true in E. tauto.
  - apply IH. tauto.
Qed.

Lemma withRatings_same doc : withRatings doc (ratings doc) = doc.
Proof. now destruct doc. Qed.

Lemma map_id_replace doc docs : map id (replace doc docs) = map id docs.
Proof.
  induction docs as [|d docs IH]; simpl; [reflexivity|].
  destruct (hasId (id doc) d) eqn:E; simpl.
  - apply hasId_true in E. now rewrite E.
  - now rewrite IH.
Qed.

(** Saving a document as it was read changes nothing. *)
Lemma replace_unchanged doc docs :
  List.find (hasId (id doc)) docs = Some doc -> replace doc docs = docs.
Proof.
  induction docs as [|d docs IH]; simpl; [reflexivity|].
  destruct (hasId (id doc) d) eqn:E; intros H.
  - congruence.
  - now rewrite IH.
Qed.

Lemma find_replace_same doc docs old :
  List.find (hasId (id doc)) docs = Some old ->
  List.find (hasId (id doc)) (replace doc docs) = Some doc.
Proof.
  induction docs as [|d docs IH]; simpl; [discriminate|].
  destruct (hasId (id doc) d) eqn:E; intros H; simpl.
  - unfold hasId. now rewrite Nat.eqb_refl.
  - rewrite E. now apply IH.
Qed.

Lemma find_replace_other i doc docs :
  i <> id doc ->
  List.find (hasId i) (replace doc docs) = List.find (hasId i) docs.
Proof.
  intros Hne. induction docs as [|d docs IH]; simpl; [reflexivity|].
  destruct (hasId (id doc) d) eqn:E; simpl.
  - apply hasId_true in E.
    replace (hasId i doc) with false
      by (symmetry; apply Nat.eqb_neq; congruence).
    replace (hasId i d) with false
      by (symmetry; apply Nat.eqb_neq; congruence).
    reflexivity.
  - now rewrite IH.
Qed.

Lemma find_remove_other i j docs :
  i <> j ->
  List.find (hasId j) (remove i docs) = List.find (hasId j) docs.
Proof.
  intros Hne. induction docs as [|d docs IH]; simpl; [reflexivity|].
  destruct (hasId i d) eqn:E; simpl.
  - apply hasId_true in E.
    replace (hasId j d) with false
      by (symmetry; apply Nat.eqb_neq; congruence).
    reflexivity.
  - now rewrite IH.
Qed.

(** Identifiers are unique in a collection, so a deleted identifier no
    longer resolves. *)
Lemma find_remove_same i docs :
  NoDup (map id docs) -> List.find (hasId i) (remove i docs) = None.
Proof.
  induction docs as [|d docs IH]; simpl; intros Hnd; [reflexivity|].
  inversion Hnd as [|? ? Hnotin Hnd']; subst.
  destruct (hasId i d) eqn:E; simpl.
  - apply hasId_true in E. subst i. now apply find_hasId_absent.
  - rewrite E. now apply IH.
Qed.

Lemma existsb_isFor sp (rs : list Rating) :
  existsb (isFor sp) rs = true <-> In sp (map species rs).
Proof.
  rewrite existsb_exists, in_map_iff. unfold isFor.
  split; intros [r [H1 H2]]; exists r.
  - apply Species_eqb_eq in H2. tauto.
  - split; [tauto|]. apply Species_eqb_eq. tauto.
Qed.


(** When the duplicate rates each species once, the [forEach] appends the
    ratings whose species the primary did not rate. *)
Lemma mergeRatings_unrated (dup acc : list Rating) :
  NoDup (map species dup) ->
  mergeRatings acc dup =
  acc ++ filter (fun dr => negb (existsb (isFor (species dr)) acc)) dup.
Proof.
  unfold mergeRatings. revert acc.
  induction dup as [|dr dup IH]; simpl; intros acc Hnd.
  - now rewrite app_nil_r.
  - inversion Hnd as [|? ? Hnotin Hnd']; subst.
    change (existsb (fun pr => Species_eqb (species pr) (species dr)) acc)
      with (existsb (isFor (species dr)) acc).
    destruct (existsb (isFor (species dr)) acc) eqn:E; simpl.
    + now apply IH.
    + rewrite IH by assumption. rewrite <- app_assoc. simpl.
      do 2 f_equal. apply filter_ext_in. intros x Hx.
      rewrite existsb_app. simpl. rewrite orb_false_r.
      replace (isFor (species x) dr) with false; [now rewrite orb_false_r|].
      symmetry. apply not_true_is_false. unfold isFor. intros Heq.
      apply Species_eqb_eq in Heq. apply Hnotin. rewrite Heq.
      now apply in_map.
Qed.


Lemma firstPerSpecies_unique (rs : list Rating) :
  NoDup (map species rs) -> firstPerSpecies rs = rs.
Proof.
  induction rs as [|r rs IH]; simpl; intros Hnd; [reflexivity|].
  inversion Hnd as [|? ? Hnotin Hnd']; subst. rewrite IH by assumption.
  f_equal. apply filter_all_true. intros x Hx. apply negb_true_iff.
  apply not_true_is_false. unfold isFor. intros Heq.
  apply Species_eqb_eq in Heq. apply Hnotin. rewrite <- Heq.
  now apply in_map.
Qed.


(** In general the first rating of the duplicate for a species wins: a
    later one finds the species rated by the copy of the earlier one. *)
Lemma mergeRatings_species (dup acc : list Rating) sp :
  In sp (map species (mergeRatings acc dup)) <->
  In sp (map species acc) \/ In sp (map species dup).
Proof.
  unfold mergeRatings. revert acc.
  induction dup as [|dr dup IH]; simpl; intros acc; [tauto|].
  rewrite IH.
  change (existsb (fun pr => Species_eqb (species pr) (species dr)) acc)
    with (existsb (isFor (species dr)) acc).
  destruct (existsb (isFor (species dr)) acc) eqn:E.
  - apply existsb_isFor in E. split; [tauto|].
    intros [H|[H|H]]; subst; tauto.
  - rewrite map_app, in_app_iff. simpl. tauto.
Qed.

End IngredientStore.

(** ** Ingredient.mergeDuplicates *)

Section MergeDuplicates.
Import Ingredient.

Variable docs : Collection.
Hypothesis unique_ids : NoDup (map id docs).



End MergeDuplicates.

(** ** Ingredient.push *)

Section Push.
Import Ingredient.

Implicit Types (docs : Collection) (doc : IngredientEntry).

Lemma freshId_not_in docs : ~ In (freshId docs) (map id docs).
Proof.
  intros Hin.
  assert (H : Forall (fun k => k <= list_max (map id docs)) (map id docs))
    by now apply list_max_le.
  rewrite Forall_forall in H. apply H in Hin. unfold freshId in Hin. lia.
Qed.










End Push.

(** ** The name filter of Ingredient.find *)

Section NameFilter.







End NameFilter.

(** ** Ingredient.find *)

Section IngredientFind.
Import Ingredient.



(** With [rating] left out and both bounds given, the assignment for
    [maxRating] overwrites the one for [minRating]: the query is the one
    of the upper bound alone. *)
Lemma buildQuery_both_bounds re (f : FilterOptions.t) lo hi :
  FilterOptions.rating f = undefined ->
  FilterOptions.minRating f = Some lo ->
  FilterOptions.maxRating f = Some hi ->
  buildQuery re f
  = buildQuery re
      (FilterOptions.make (FilterOptions.id f) (FilterOptions.name f)
         (FilterOptions.species f) undefined None (Some hi)).
Proof.
  destruct f as [i nm sp rt mn mx]. simpl. intros -> -> ->.
  unfold buildQuery. simpl. now destruct re, sp.
Qed.

(** When [rating] is given, be it [null], the bounds play no part. *)
Lemma find_rating_ignores_bounds (f : FilterOptions.t) lo hi docs :
  FilterOptions.rating f <> undefined ->
  find f docs
  = find (FilterOptions.make (FilterOptions.id f) (FilterOptions.name f)
            (FilterOptions.species f) (FilterOptions.rating f) lo hi) docs.
Proof.
  destruct f as [i nm sp rt mn mx]. simpl. intros Hrt.
  unfold find, buildQuery. simpl.
  destruct rt; [congruence|reflexivity|reflexivity].
Qed.

End IngredientFind.

(** ** Product.add *)

Section ProductAdd.
Import Product.

Lemma hasKey_true b f sp ls ft p :
  hasKey b f sp ls ft p = true
  <-> brand p = b /\ flavor p = f /\ species p = sp
      /\ lifeStage p = ls /\ foodType p = ft.
Proof.
  unfold hasKey.
  rewrite !andb_true_iff, !String.eqb_eq, Species_eqb_eq,
    LifeStage_eqb_eq, FoodType_eqb_eq.
  tauto.
Qed.

Lemma findOne_key b f sp ls ft s :
  (exists p, List.find (hasKey b f sp ls ft) (products s) = Some p)
  <-> keyTaken b f sp ls ft s.
Proof.
  unfold keyTaken. split.
  - intros [p H]. apply find_some in H as [Hin Hkey].
    exists p. split; [exact Hin|]. now apply hasKey_true.
  - intros [p [Hin Hkey]].
    destruct (List.find (hasKey b f sp ls ft) (products s)) as [q|] eqn:E;
      [now exists q|].
    apply (find_none _ _ E) in Hin. apply hasKey_true in Hkey. congruence.
Qed.

Lemma findOne_none b f sp ls ft s :
  ~ keyTaken b f sp ls ft s ->
  List.find (hasKey b f sp ls ft) (products s) = None.
Proof.
  intros H.
  destruct (List.find (hasKey b f sp ls ft) (products s)) as [q|] eqn:E;
    [|reflexivity].
  exfalso. apply H, findOne_key. now exists q.
Qed.

(** The run of [add] when the key is taken: the error, and the store as it
    was. *)
Lemma add_taken b f sp ls ft ings szs chart s :
  keyTaken b f sp ls ft s ->
  add b f sp ls ft ings szs chart s = (Throw AlreadyExists, s).
Proof.
  intros H. apply findOne_key in H as [p H].
  unfold add, bind, findOne, gets, throw. now rewrite H.
Qed.

(** The run of [add] when the key is free: the pushes of [pushMany] reach
    the ingredient collection and the new product is appended. *)
Lemma add_free b f sp ls ft ings szs chart s :
  ~ keyTaken b f sp ls ft s ->
  let p := mkEntry (freshId (products s)) b f sp ls ft ings szs chart in
  add b f sp ls ft ings szs chart s
  = (Ok p,
     mkStore (products s ++ [p])
       (Ingredient.settle
          (Ingredient.pushMany (Ingredient.Names ings sp))
          (ingredientStore s))).
Proof.
  intros H. apply findOne_none in H.
  unfold add, bind, findOne, gets, unawaited, modify, create. rewrite H.
  reflexivity.
Qed.

(** Claim C4. [add] fails with [AlreadyExists] exactly when a stored
    product has the same brand, flavor, species, life stage and food
    type, and then leaves the store as it was; when the key is free the
    product is appended; and two [add] calls in a row whose keys differ
    and are both free at the start both succeed. *)
Theorem add_fails_iff_key_taken (s : Store) (b f : string) (sp : Species)
  (ls : LifeStage) (ft : FoodType) (ings : list string) (szs : list Size)
  (chart : list FeedingRow) :
  (fst (add b f sp ls ft ings szs chart s) = Throw AlreadyExists
   <-> keyTaken b f sp ls ft s)
  /\ (keyTaken b f sp ls ft s ->
      snd (add b f sp ls ft ings szs chart s) = s)
  /\ (~ keyTaken b f sp ls ft s ->
      exists p, fst (add b f sp ls ft ings szs chart s) = Ok p
        /\ products (snd (add b f sp ls ft ings szs chart s))
           = products s ++ [p])
  /\ (forall b' f' sp' ls' ft' ings' szs' chart',
        (b, f, sp, ls, ft) <> (b', f', sp', ls', ft') ->
        ~ keyTaken b f sp ls ft s ->
        ~ keyTaken b' f' sp' ls' ft' s ->
        exists p p',
          fst (add b f sp ls ft ings szs chart s) = Ok p
          /\ fst (add b' f' sp' ls' ft' ings' szs' chart'
                    (snd (add b f sp ls ft ings szs chart s))) = Ok p').
Proof.
  repeat split.
  - intros Hthrow.
    destruct (List.find (hasKey b f sp ls ft) (products s)) as [q|] eqn:E.
    + apply findOne_key. now exists q.
    + unfold add, bind, findOne, gets, unawaited, modify, create in Hthrow.
      rewrite E in Hthrow. discriminate.
  - intros H. now rewrite add_taken.
  - intros H. now rewrite add_taken.
  - intros H. rewrite add_free by exact H. simpl. now eexists.
  - intros b' f' sp' ls' ft' ings' szs' chart' Hne Hfree Hfree'.
    rewrite add_free by exact Hfree. simpl.
    eexists. eexists. split; [reflexivity|].
    rewrite add_free; [reflexivity|].
    intros [q [Hin Hkey]]. simpl in Hin. apply in_app_iff in Hin.
    destruct Hin as [Hin|[Heq|[]]].
    + apply Hfree'. now exists q.
    + subst q. simpl in Hkey.
      destruct Hkey as (-> & -> & -> & -> & ->). now apply Hne.
Qed.

End ProductAdd.

(** ** Product.find *)

Section ProductFind.
Import Product.

(** Without an id, [find] returns the whole collection, whatever the
    other filters say: the query never reaches [ProductModel.find]. *)
Lemma find_returns_every_product (filters : FilterOptions.t) (s : Store) :
  FilterOptions.id filters = None ->
  find filters s = Many (products s).
Proof.
  intros H. unfold find. rewrite H. f_equal. now apply filter_all_true.
Qed.

Lemma passesLifeStage_adult p :
  passesLifeStage adult p = true
  <-> lifeStage p = adult \/ lifeStage p = all.
Proof.
  unfold passesLifeStage. destruct (lifeStage p); simpl; intuition congruence.
Qed.

Lemma passesLifeStage_all p :
  passesLifeStage all p = true <-> lifeStage p = all.
Proof.
  unfold passesLifeStage. destruct (lifeStage p); simpl; intuition congruence.
Qed.

(** The version of [find] that hands the query over does what claim C1
    says: among the products the other filters let through, it returns
    exactly those whose stored life stage is the filter value or [all];
    so [adult] gives [adult] and [all], never [young], and [all] gives the
    products stored as [all] only. *)
Lemma find_with_query_lifeStage (filters : FilterOptions.t)
  (ls : LifeStage) (s : Store) :
  FilterOptions.id filters = None ->
  FilterOptions.lifeStage filters = Some ls ->
  exists others,
    find_with_query
      (FilterOptions.make None (FilterOptions.brand filters)
         (FilterOptions.flavor filters) (FilterOptions.species filters)
         None (FilterOptions.foodType filters)) s = Many others
    /\ find_with_query filters s
       = Many (filter (passesLifeStage ls) others).
Proof.
  destruct filters as [i b f sp l ft]. simpl. intros -> ->.
  eexists. split; [reflexivity|].
  unfold find_with_query. simpl. f_equal.
  rewrite <- filter_andb. apply filter_ext. intros p.
  unfold matches, buildQuery, passesLifeStage. simpl.
  rewrite orb_false_r.
  destruct (whenSet b (String.eqb (brand p))),
    (whenSet f (String.eqb (flavor p))),
    (whenSet sp (Species_eqb (species p))),
    (whenSet ft (FoodType_eqb (foodType p)));
    simpl; rewrite ?andb_true_r, ?andb_false_r; reflexivity.
Qed.

End ProductFind.

(** ** Product.update *)

Section ProductUpdate.
Import Product.

(** [update] never calls [Ingredient.pushMany]: whatever the updates, the
    ingredient collection is left as it was. *)
Lemma update_leaves_ingredients (i : nat) (updates : Updates.t)
  (s : Store) :
  ingredientStore (snd (update i updates s)) = ingredientStore s.
Proof.
  unfold update, bind, findById, gets, throw. cbv beta.
  destruct (List.find (hasId i) (products s)) as [doc|] eqn:E;
    [|reflexivity].
  destruct (noKeys updates); [reflexivity|].
  unfold findByIdAndUpdate. now rewrite E.
Qed.

End ProductUpdate.

(** ** Product.addSize *)

Section ProductAddSize.
Import Product.

Lemma truthyString_some pk :
  pk <> "" -> truthyString (Some pk) = Some pk.
Proof.
  intros H. unfold truthyString.
  destruct (String.eqb pk "") eqn:E; [|reflexivity].
  apply String.eqb_eq in E. contradiction.
Qed.

Lemma truthyNumber_some q : ~ q == 0 -> truthyNumber (Some q) = Some q.
Proof.
  intros H. unfold truthyNumber.
  destruct (Qeq_bool q 0) eqn:E; [|reflexivity].
  apply Qeq_bool_iff in E. contradiction.
Qed.

Lemma truthyNumber_zero q : q == 0 -> truthyNumber (Some q) = None.
Proof.
  intros H. unfold truthyNumber. apply Qeq_bool_iff in H. now rewrite H.
Qed.

(** The check of [addSize] written out: the size is rejected when one of
    the four values is falsy. *)
Lemma addSize_incomplete productId product (size : SizeDetails.t) s :
  List.find (hasId productId) (products s) = Some product ->
  truthyString (SizeDetails.packaging size) = None
  \/ truthyNumber (SizeDetails.price size) = None
  \/ truthyNumber (SizeDetails.count size) = None
  \/ SizeDetails.unit size = None ->
  addSize productId size s = (Throw IncompleteSizeDetails, s).
Proof.
  intros Hfind H. unfold addSize, bind, findById, gets, throw.
  rewrite Hfind.
  destruct (truthyString (SizeDetails.packaging size)),
    (truthyNumber (SizeDetails.price size)),
    (truthyNumber (SizeDetails.count size)),
    (SizeDetails.unit size);
    try reflexivity.
  destruct H as [H|[H|[H|H]]]; discriminate.
Qed.

(** Claim C8, as the code has it. On an existing product [addSize] fails
    with [IncompleteSizeDetails] when packaging, price, count or unit is
    missing, and the store (so the product's sizes) is then as it was;
    when the four are present and truthy (a packaging that is not the
    empty string, a price and a count that are not zero) the size is
    appended to the product's sizes, with [links] and [imageUrls]
    defaulting to the empty list. *)
Theorem addSize_checks_required_fields (s : Store) (productId : nat)
  (product : ProductEntry) (size : SizeDetails.t) :
  List.find (hasId productId) (products s) = Some product ->
  (SizeDetails.packaging size = None \/ SizeDetails.price size = None
   \/ SizeDetails.count size = None \/ SizeDetails.unit size = None ->
   addSize productId size s = (Throw IncompleteSizeDetails, s))
  /\ (forall pk pr ct u,
        SizeDetails.packaging size = Some pk -> pk <> "" ->
        SizeDetails.price size = Some pr -> ~ pr == 0 ->
        SizeDetails.count size = Some ct -> ~ ct == 0 ->
        SizeDetails.unit size = Some u ->
        let added :=
          mkSize pk pr ct u (orElse (SizeDetails.links size) [])
            (orElse (SizeDetails.imageUrls size) []) in
        let product' := withSizes product (sizes product ++ [added]) in
        addSize productId size s
        = (Ok product', withProducts (replace product') s)
        /\ List.find (hasId productId)
             (products (snd (addSize productId size s)))
           = Some product').
Proof.
  intros Hfind. split.
  - intros H. apply (addSize_incomplete productId product); [exact Hfind|].
    destruct H as [H|[H|[H|H]]]; rewrite H; simpl; tauto.
  - intros pk pr ct u Hpk Hpk' Hpr Hpr' Hct Hct' Hu added product'.
    assert (Hrun : addSize productId size s
                   = (Ok product', withProducts (replace product') s)).
    { unfold addSize, bind, findById, gets, save. rewrite Hfind.
      rewrite Hpk, Hpr, Hct, Hu.
      now rewrite truthyString_some, !truthyNumber_some. }
    split; [exact Hrun|]. rewrite Hrun. simpl.
    assert (Hid : id product = productId).
    { apply find_some in Hfind as [_ H]. now apply Nat.eqb_eq in H. }
    clear Hrun. revert Hfind. generalize (products s) as docs.
    induction docs as [|d docs IH]; simpl; [discriminate|].
    rewrite Hid. destruct (hasId productId d) eqn:E; simpl.
    + intros _. unfold hasId. simpl. rewrite Hid. now rewrite Nat.eqb_refl.
    + rewrite E. exact IH.
Qed.

(** Claim C10. On an existing product, a size whose price is zero, or
    whose count is zero, or whose packaging is the empty string, is
    rejected with [IncompleteSizeDetails] although the field is there;
    the store is left as it was. *)
Theorem addSize_rejects_zero_and_empty (s : Store) (productId : nat)
  (product : ProductEntry) (size : SizeDetails.t) :
  List.find (hasId productId) (products s) = Some product ->
  (exists q, SizeDetails.price size = Some q /\ q == 0)
  \/ (exists q, SizeDetails.count size = Some q /\ q == 0)
  \/ SizeDetails.packaging size = Some "" ->
  addSize productId size s = (Throw IncompleteSizeDetails, s).
Proof.
  intros Hfind H. apply (addSize_incomplete productId product);
    [exact Hfind|].
  destruct H as [[q [H Hq]]|[[q [H Hq]]|H]]; rewrite H.
  - right; left. now apply truthyNumber_zero.
  - right; right; left. now apply truthyNumber_zero.
  - left. reflexivity.
Qed.

End ProductAddSize.

(** ** Ingredient reconciliation from Product.add *)

Section Reconciliation.
Import Ingredient.

Implicit Types (docs : Collection) (doc : IngredientEntry).

Lemma unique_id_same docs a b :
  NoDup (map id docs) -> In a docs -> In b docs -> id a = id b -> a = b.
Proof.
  induction docs as [|d docs IH]; simpl; intros Hnd Ha Hb Hid; [tauto|].
  inversion Hnd as [|? ? Hd Hnd']; subst.
  destruct Ha as [<-|Ha], Hb as [<-|Hb]; try reflexivity.
  - exfalso. apply Hd. rewrite Hid. now apply in_map.
  - exfalso. apply Hd. rewrite <- Hid. now apply in_map.
  - now apply IH.
Qed.

Lemma In_replace doc docs old :
  In old docs -> id old = id doc -> In doc (replace doc docs).
Proof.
  induction docs as [|d docs IH]; simpl; intros Hin Hid; [tauto|].
  destruct (hasId (id doc) d) eqn:E; simpl; [tauto|].
  destruct Hin as [->|Hin].
  - apply Nat.eqb_neq in E. congruence.
  - right. now apply IH.
Qed.

Lemma In_replace_other doc docs other :
  In other docs -> id other <> id doc -> In other (replace doc docs).
Proof.
  induction docs as [|d docs IH]; simpl; intros Hin Hid; [tauto|].
  destruct (hasId (id doc) d) eqn:E; simpl.
  - destruct Hin as [->|Hin]; [|tauto].
    apply hasId_true in E. congruence.
  - destruct Hin as [->|Hin]; [tauto|]. right. now apply IH.
Qed.

(** [Object.assign] leaves the species of the ratings alone. *)
Lemma map_species_assignFirst sp h nt (rs : list Rating) :
  map species (assignFirst sp h nt rs) = map species rs.
Proof.
  induction rs as [|r rs IH]; simpl; [reflexivity|].
  destruct (isFor sp r); simpl; [reflexivity|]. now rewrite IH.
Qed.

(** What [push] does to the collection, case by case. *)
Lemma push_cases n sp h nt docs :
  (List.find (hasName n) docs = None /\ n = ""
   /\ snd (push n sp h nt docs) = docs)
  \/ (List.find (hasName n) docs = None /\ n <> ""
      /\ snd (push n sp h nt docs)
         = docs ++ [mkEntry (freshId docs) n
                      [mkRating sp (orNull h) (orNull nt)]])
  \/ (exists ingredient rs,
        In ingredient docs
        /\ name ingredient = n
        /\ (forall sp', In sp' (map species (ratings ingredient)) ->
                        In sp' (map species rs))
        /\ In sp (map species rs)
        /\ snd (push n sp h nt docs)
           = replace (withRatings ingredient rs) docs).
Proof.
  unfold push, bind, findOne, gets, create, save.
  destruct (List.find (hasName n) docs) as [ingredient|] eqn:E.
  - right; right.
    apply find_some in E as [Hin Hname]. apply hasName_true in Hname.
    destruct (List.find (isFor sp) (ratings ingredient)) as [r|] eqn:Er.
    + exists ingredient, (assignFirst sp h nt (ratings ingredient)).
      rewrite map_species_assignFirst. repeat split; try tauto.
      apply find_some in Er as [Hr Hsp]. apply existsb_isFor.
      apply existsb_exists. now exists r.
    + exists ingredient,
        (ratings ingredient ++ [mkRating sp (orNull h) (orNull nt)]).
      rewrite map_app. simpl. repeat split; try tauto.
      * intros sp' H. apply in_app_iff. tauto.
      * apply in_app_iff. simpl. tauto.
  - destruct (String.eqb n "") eqn:En.
    + left. apply String.eqb_eq in En. tauto.
    + right; left. apply String.eqb_neq in En. tauto.
Qed.

Lemma push_keeps_ids_unique n sp h nt docs :
  NoDup (map id docs) -> NoDup (map id (snd (push n sp h nt docs))).
Proof.
  intros Hnd.
  destruct (push_cases n sp h nt docs)
    as [(_ & _ & ->)|[(_ & _ & ->)|(ingredient & rs & _ & _ & _ & _ & ->)]].
  - exact Hnd.
  - rewrite map_app. simpl. apply NoDup_snoc; [exact Hnd|].
    apply freshId_not_in.
  - now rewrite map_id_replace.
Qed.

(** After [push(n, sp)] a name that is not empty has an entry rated for the
    species. *)
Lemma push_registers n sp h nt docs :
  n <> "" -> registered n sp (snd (push n sp h nt docs)).
Proof.
  intros Hn. unfold registered.
  destruct (push_cases n sp h nt docs)
    as [(_ & He & _)|[(_ & _ & ->)
                     |(ingredient & rs & Hin & Hname & _ & Hsp & ->)]].
  - contradiction.
  - eexists. split; [apply in_app_iff; right; left; reflexivity|].
    simpl. unfold isFor. simpl. now rewrite Species_eqb_refl.
  - exists (withRatings ingredient rs). split.
    + now apply In_replace with (old := ingredient).
    + split; [exact Hname|]. now apply existsb_isFor.
Qed.

(** A [push] for one name does not take away what is registered. *)
Lemma push_keeps_registered n sp h nt m sp' docs :
  NoDup (map id docs) ->
  registered m sp' docs ->
  registered m sp' (snd (push n sp h nt docs)).
Proof.
  intros Hnd (w & Hw & Hwname & Hwsp). unfold registered.
  destruct (push_cases n sp h nt docs)
    as [(_ & _ & ->)|[(_ & _ & ->)
                     |(ingredient & rs & Hin & Hname & Hkeep & _ & ->)]].
  - exists w. tauto.
  - exists w. split; [apply in_app_iff; tauto|tauto].
  - destruct (Nat.eq_dec (id w) (id ingredient)) as [Hid|Hid].
    + assert (w = ingredient) by now apply unique_id_same with docs.
      subst w. exists (withRatings ingredient rs). split.
      * now apply In_replace with (old := ingredient).
      * split; [exact Hwname|]. apply existsb_isFor, Hkeep.
        now apply existsb_isFor.
    + exists w. split; [|tauto]. now apply In_replace_other.
Qed.

Lemma oneByOne_keeps_ids_unique promises docs :
  NoDup (map id docs) -> NoDup (map id (oneByOne promises docs)).
Proof.
  revert docs.
  induction promises as [|p promises IH]; simpl; intros docs Hnd;
    [exact Hnd|].
  apply IH. now apply push_keeps_ids_unique.
Qed.

Lemma oneByOne_keeps_registered promises m sp docs :
  NoDup (map id docs) ->
  registered m sp docs -> registered m sp (oneByOne promises docs).
Proof.
  revert docs.
  induction promises as [|p promises IH]; simpl; intros docs Hnd Hreg;
    [exact Hreg|].
  apply IH; [now apply push_keeps_ids_unique|].
  now apply push_keeps_registered.
Qed.

(** The pushes for a list of names, each awaited before the next, on a
    collection with unique ids, register every name of the list that is not
    empty. *)
Lemma oneByOne_registers_names names sp docs n :
  NoDup (map id docs) ->
  In n names -> n <> "" ->
  registered n sp (oneByOne (pushMany (Names names sp)) docs).
Proof.
  simpl. intros Hnd Hin Hn. revert docs Hnd.
  induction names as [|m names IH]; simpl in *; intros docs Hnd; [tauto|].
  destruct Hin as [->|Hin].
  - apply oneByOne_keeps_registered;
      [now apply push_keeps_ids_unique|now apply push_registers].
  - apply IH; [exact Hin|now apply push_keeps_ids_unique].
Qed.

End Reconciliation.

(** ** The code on sample data *)

Section OnSamples.
Import Samples.


(** Claim C1 (not met by [Product.find]). On a shelf with one product per
    life stage, the filter [lifeStage = adult] returns the [young] product
    too, and the filter [lifeStage = all] returns the [adult] and [young]
    ones too: [find] returns every product. The version that hands the
    query to the store returns [adult] and [all] for the first filter and
    [all] alone for the second. *)
Theorem find_by_lifeStage_returns_every_product :
  Product.find (byLifeStage adult) shelf
  = Product.Many [kibble 1 adult; kibble 2 young; kibble 3 all]
  /\ Product.find (byLifeStage all) shelf
     = Product.Many [kibble 1 adult; kibble 2 young; kibble 3 all]
  /\ Product.find_with_query (byLifeStage adult) shelf
     = Product.Many [kibble 1 adult; kibble 3 all]
  /\ Product.find_with_query (byLifeStage all) shelf
     = Product.Many [kibble 3 all].
Proof. repeat split. Qed.

(** Claim C3 (not met by [Product.update]). Updating a product with a new
    ingredient list succeeds and stores the list, and no ingredient is
    pushed: the ingredient collection is still empty. [Product.add] with
    the same list does push each name with the product's species, rating
    and notes unset. *)
Theorem update_with_ingredients_pushes_nothing :
  fst (Product.update 1 (newIngredients ["Chicken"; "Peas"]) shelf)
  = Ok (Some (Product.mkEntry 1 "Acme" "Salmon" cat adult dry
                ["Chicken"; "Peas"] [] []))
  /\ Product.ingredientStore
       (snd (Product.update 1 (newIngredients ["Chicken"; "Peas"]) shelf))
     = []
  /\ Product.ingredientStore
       (snd (Product.add "Acme" "Tuna" cat adult wet ["Chicken"; "Peas"]
               [] [] shelf))
     = [Ingredient.mkEntry 1 "Chicken" [Ingredient.mkRating cat None None];
        Ingredient.mkEntry 2 "Peas" [Ingredient.mkRating cat None None]].
Proof. repeat split. Qed.

(** Claim C5 (not met by [Ingredient.find]). With [minRating = 0] and
    [maxRating = 5], [find] returns Beef, rated -3: only the upper bound
    is applied. *)
Theorem find_between_bounds_returns_below_minimum :
  Ingredient.find (between 0 5) pantry
  = Some (Ok (Ingredient.Many [beef; rice]))
  /\ Ingredient.ratings beef = [Ingredient.mkRating cat (Some (-3)%Z) None]
  /\ Ingredient.find (between 0 5) pantry
     = Ingredient.find
         (Ingredient.FilterOptions.make None None None undefined None
            (Some 5%Z)) pantry.
Proof. repeat split. Qed.




(** Claim C8 fails as stated. A size with packaging, price, count and
    unit all present, the price being zero, is not appended: [addSize]
    throws [IncompleteSizeDetails]. *)
Lemma addSize_rejects_present_zero_price :
  Product.SizeDetails.packaging (bag (Some 0%Q)) = Some "bag"
  /\ Product.SizeDetails.price (bag (Some 0%Q)) = Some 0%Q
  /\ Product.SizeDetails.count (bag (Some 0%Q)) = Some 4%Q
  /\ Product.SizeDetails.unit (bag (Some 0%Q)) = Some lb
  /\ Product.addSize 1 (bag (Some 0%Q)) shelf
     = (Throw IncompleteSizeDetails, shelf).
Proof. repeat split. Qed.


(** A run of claim C4: two products that differ in the food type. *)
Lemma add_fails_iff_key_taken_witness :
  ("Acme", "Salmon", cat, adult, wet) <> ("Acme", "Salmon", cat, all, wet)
  /\ ~ keyTaken "Acme" "Salmon" cat adult wet shelf
  /\ ~ keyTaken "Acme" "Salmon" cat all wet shelf
  /\ exists p p',
       fst (Product.add "Acme" "Salmon" cat adult wet [] [] [] shelf) = Ok p
       /\ fst (Product.add "Acme" "Salmon" cat all wet [] [] []
                 (snd (Product.add "Acme" "Salmon" cat adult wet [] [] []
                         shelf))) = Ok p'.
Proof.
  assert (Hne : ("Acme", "Salmon", cat, adult, wet)
                <> ("Acme", "Salmon", cat, all, wet)) by discriminate.
  assert (Hfree : forall ls, ~ keyTaken "Acme" "Salmon" cat ls wet shelf).
  { intros ls [p [Hin Hkey]]. simpl in Hin.
    destruct Hin as [<-|[<-|[<-|[]]]]; simpl in Hkey;
      destruct Hkey as (_ & _ & _ & _ & Hft); discriminate. }
  split; [exact Hne|]. split; [apply Hfree|]. split; [apply Hfree|].
  exact (proj2 (proj2 (proj2
           (add_fails_iff_key_taken shelf "Acme" "Salmon" cat adult wet
              [] [] [])))
           "Acme" "Salmon" cat all wet [] [] [] Hne (Hfree adult)
           (Hfree all)).
Defined.




(** A run of claim C8 as amended: a bag without a price is rejected. *)
Lemma addSize_checks_required_fields_witness :
  List.find (Product.hasId 1) (Product.products shelf)
  = Some (kibble 1 adult)
  /\ Product.SizeDetails.price (bag None) = None
  /\ Product.addSize 1 (bag None) shelf
     = (Throw IncompleteSizeDetails, shelf).
Proof.
  split; [reflexivity|]. split; [reflexivity|].
  apply (proj1 (addSize_checks_required_fields shelf 1 (kibble 1 adult)
                  (bag None) eq_refl)).
  right; left. reflexivity.
Defined.

(** A run of claim C10: a bag priced zero. *)
Lemma addSize_rejects_zero_and_empty_witness :
  List.find (Product.hasId 1) (Product.products shelf)
  = Some (kibble 1 adult)
  /\ Product.SizeDetails.price (bag (Some 0%Q)) = Some 0%Q
  /\ Product.addSize 1 (bag (Some 0%Q)) shelf
     = (Throw IncompleteSizeDetails, shelf).
Proof.
  split; [reflexivity|]. split; [reflexivity|].
  apply (addSize_rejects_zero_and_empty shelf 1 (kibble 1 adult)
           (bag (Some 0%Q)) eq_refl).
  left. exists 0%Q. split; reflexivity.
Defined.

End OnSamples.

(** * Further properties of the models *)

(** ** Ingredient.add, getOne and getAll *)

Section IngredientReads.
Import Ingredient.

Implicit Types (docs : Collection) (doc : IngredientEntry).

Lemma find_hasName_some n docs :
  (exists doc, List.find (hasName n) docs = Some doc)
  <-> (exists doc, In doc docs /\ name doc = n).
Proof.
  split.
  - intros [doc H]. apply find_some in H as [Hin Hn].
    exists doc. split; [exact Hin|]. now apply hasName_true.
  - intros [doc [Hin Hn]].
    destruct (List.find (hasName n) docs) as [d|] eqn:E; [now exists d|].
    apply (find_none _ _ E) in Hin. apply hasName_true in Hn. congruence.
Qed.

(** [Ingredient.add] throws [AlreadyExists] exactly when an ingredient
    carries the very name (compared character by character), and then
    leaves the collection alone; when the name is free and empty the schema
    rejects the new document with [ValidationError] and nothing is stored;
    when it is free and not empty the entry is appended, with the ratings
    given or none; adding a name that is not empty once more throws
    [AlreadyExists], whichever happened the first time. *)
Theorem ingredient_add_fails_iff_name_taken (n : string)
  (rs : option (list Rating)) (docs : Collection) :
  (fst (add n rs docs) = Throw AlreadyExists
   <-> exists doc, In doc docs /\ name doc = n)
  /\ ((exists doc, In doc docs /\ name doc = n) ->
      snd (add n rs docs) = docs)
  /\ (~ (exists doc, In doc docs /\ name doc = n) -> n = "" ->
      add n rs docs = (Throw ValidationError, docs))
  /\ (~ (exists doc, In doc docs /\ name doc = n) -> n <> "" ->
      add n rs docs
      = (Ok tt, docs ++ [mkEntry (freshId docs) n (orElse rs [])]))
  /\ (n <> "" ->
      forall rs',
        fst (add n rs' (snd (add n rs docs))) = Throw AlreadyExists).
Proof.
  assert (Hrun : forall rs0 docs0,
             match List.find (hasName n) docs0 with
             | Some _ => add n rs0 docs0 = (Throw AlreadyExists, docs0)
             | None =>
                 add n rs0 docs0
                 = if String.eqb n "" then (Throw ValidationError, docs0)
                   else (Ok tt,
                         docs0
                           ++ [mkEntry (freshId docs0) n (orElse rs0 [])])
             end).
  { intros rs0 docs0. unfold add, bind, findOne, gets, throw, create, ret.
    destruct (List.find (hasName n) docs0); [reflexivity|].
    now destruct (String.eqb n ""). }
  pose proof (Hrun rs docs) as H.
  pose proof (find_hasName_some n docs) as Hiff.
  destruct (List.find (hasName n) docs) as [d|] eqn:E.
  - assert (Htaken : exists doc, In doc docs /\ name doc = n)
      by (apply Hiff; now exists d).
    rewrite H. simpl.
    split; [tauto|]. split; [tauto|]. split; [tauto|]. split; [tauto|].
    intros _ rs'. pose proof (Hrun rs' docs) as H'. rewrite E in H'.
    now rewrite H'.
  - assert (Hfree : ~ exists doc, In doc docs /\ name doc = n).
    { intros Ht. apply Hiff in Ht as [d Hd]. discriminate. }
    rewrite H.
    destruct (String.eqb n "") eqn:En.
    + apply String.eqb_eq in En. simpl.
      split; [split; [discriminate|tauto]|].
      split; [tauto|]. split; [tauto|]. split; [tauto|]. tauto.
    + apply String.eqb_neq in En. simpl.
      split; [split; [discriminate|tauto]|].
      split; [tauto|]. split; [tauto|]. split; [tauto|].
      intros _ rs'.
      pose proof
        (Hrun rs' (docs ++ [mkEntry (freshId docs) n (orElse rs [])]))
        as H'.
      rewrite (find_app_none _ _ _ E) in H'. simpl in H'.
      unfold hasName in H' at 1. simpl in H'.
      rewrite String.eqb_refl in H'. now rewrite H'.
Qed.

Lemma getOne_ok doc sp fetched :
  getOne doc sp = Ok fetched ->
  exists r, List.find (isFor sp) (ratings doc) = Some r
    /\ fetched = Instance.make (id doc) (name doc) (species r)
                   (healthRating r) (notes r).
Proof.
  unfold getOne.
  destruct (List.find (isFor sp) (ratings doc)) as [r|]; [|discriminate].
  intros H. injection H as <-. now exists r.
Qed.

Lemma getOne_throw doc sp e :
  getOne doc sp = Throw e ->
  e = RatingNotFound /\ List.find (isFor sp) (ratings doc) = None.
Proof.
  unfold getOne.
  destruct (List.find (isFor sp) (ratings doc)) as [r|]; [discriminate|].
  intros H. injection H as <-. now split.
Qed.

Lemma find_isFor sp (rs : list Rating) r :
  List.find (isFor sp) rs = Some r -> In r rs /\ species r = sp.
Proof.
  intros H. apply find_some in H as [Hin Hsp]. split; [exact Hin|].
  now apply Species_eqb_eq in Hsp.
Qed.

Lemma find_isFor_none sp (rs : list Rating) :
  List.find (isFor sp) rs = None <-> ~ In sp (map species rs).
Proof.
  rewrite <- existsb_isFor. split.
  - intros H Hex. apply existsb_exists in Hex as [r [Hin Hsp]].
    apply (find_none _ _ H) in Hin. congruence.
  - intros H. destruct (List.find (isFor sp) rs) as [r|] eqn:E;
      [|reflexivity].
    exfalso. apply H. apply find_some in E as [Hin Hsp].
    apply existsb_exists. now exists r.
Qed.

(** [getOne] throws [RatingNotFound] exactly when the ingredient has no
    rating for the species, and throws nothing else; otherwise the instance
    carries the id and name of the ingredient, the species asked for, and
    the health rating and notes of a rating the ingredient holds for it. *)
Theorem getOne_fails_iff_unrated (doc : IngredientEntry) (sp : Species) :
  (getOne doc sp = Throw RatingNotFound
   <-> ~ In sp (map species (ratings doc)))
  /\ (forall e, getOne doc sp = Throw e -> e = RatingNotFound)
  /\ (forall fetched, getOne doc sp = Ok fetched ->
        Instance.id fetched = id doc
        /\ Instance.name fetched = name doc
        /\ Instance.species fetched = sp
        /\ exists r, In r (ratings doc)
             /\ species r = sp
             /\ healthRating r = Instance.healthRating fetched
             /\ notes r = Instance.notes fetched).
Proof.
  split; [|split].
  - rewrite <- find_isFor_none. split.
    + intros H. now apply getOne_throw in H.
    + intros H. unfold getOne. now rewrite H.
  - intros e H. now apply getOne_throw in H.
  - intros fetched H. apply getOne_ok in H as [r [Hr ->]].
    apply find_isFor in Hr as [Hin Hsp]. simpl.
    repeat split; try assumption. now exists r.
Qed.

Lemma getOne_ok_iff doc sp :
  (exists fetched, getOne doc sp = Ok fetched)
  <-> existsb (isFor sp) (ratings doc) = true.
Proof.
  rewrite existsb_isFor. split.
  - intros [fetched H]. apply getOne_ok in H as [r [Hr _]].
    apply find_isFor in Hr as [Hin <-]. now apply in_map.
  - intros H. destruct (getOne doc sp) as [fetched|e] eqn:E;
      [now exists fetched|].
    apply getOne_throw in E as [_ E]. now apply find_isFor_none in E.
Qed.

(** [getAll] throws nothing and skips the ingredients without a rating for
    the species: it yields one instance, for that species, per ingredient
    that has one, in the order of the input; so it distributes over
    concatenation of its input. *)
Theorem getAll_skips_unrated (docs : list IngredientEntry) (sp : Species) :
  map Instance.id (getAll docs sp)
  = map id (filter (fun doc => existsb (isFor sp) (ratings doc)) docs)
  /\ (forall fetched, In fetched (getAll docs sp) ->
        Instance.species fetched = sp
        /\ exists doc, In doc docs /\ getOne doc sp = Ok fetched)
  /\ (forall more, getAll (docs ++ more) sp
                   = getAll docs sp ++ getAll more sp).
Proof.
  split; [|split].
  - induction docs as [|d docs IH]; simpl; [reflexivity|].
    destruct (getOne d sp) as [fetched|e] eqn:E.
    + assert (Hr : existsb (isFor sp) (ratings d) = true)
        by (apply getOne_ok_iff; now exists fetched).
      rewrite Hr. simpl. rewrite IH. f_equal.
      apply getOne_ok in E as [r [_ ->]]. reflexivity.
    + destruct (existsb (isFor sp) (ratings d)) eqn:Hr; [|exact IH].
      apply getOne_ok_iff in Hr as [f Hf]. congruence.
  - induction docs as [|d docs IH]; simpl; [tauto|].
    intros fetched Hin.
    assert (Hrest : In fetched (getAll docs sp) ->
                    Instance.species fetched = sp
                    /\ exists doc, (d = doc \/ In doc docs)
                         /\ getOne doc sp = Ok fetched).
    { intros H. destruct (IH _ H) as [H1 [doc [H2 H3]]].
      split; [exact H1|]. exists doc. tauto. }
    destruct (getOne d sp) as [f|e] eqn:E; [|now apply Hrest].
    destruct Hin as [<-|Hin]; [|now apply Hrest].
    split; [|exists d; tauto].
    apply getOne_ok in E as [r [Hr ->]]. simpl.
    now apply find_isFor in Hr.
  - intros more. induction docs as [|d docs IH]; simpl; [reflexivity|].
    destruct (getOne d sp); simpl; now rewrite IH.
Qed.

End IngredientReads.

(** ** Invariants of the ingredient collection *)

Section IngredientInvariants.
Import Ingredient.

Implicit Types (docs : Collection) (doc : IngredientEntry).

Lemma In_remove i docs doc : In doc (remove i docs) -> In doc docs.
Proof.
  induction docs as [|d docs IH]; simpl; [tauto|].
  destruct (hasId i d); simpl; intuition.
Qed.

Lemma unique_ids_remove i docs :
  NoDup (map id docs) -> NoDup (map id (remove i docs)).
Proof.
  induction docs as [|d docs IH]; simpl; intros Hnd; [constructor|].
  inversion Hnd as [|? ? Hnotin Hnd']; subst.
  destruct (hasId i d); simpl; [exact Hnd'|].
  constructor; [|now apply IH].
  intros Hin. apply Hnotin. apply in_map_iff in Hin as [x [Hx Hin]].
  apply in_map_iff. exists x. split; [exact Hx|].
  now apply In_remove with i.
Qed.

Lemma unique_ids_create docs n rs :
  NoDup (map id docs) ->
  NoDup (map id (docs ++ [mkEntry (freshId docs) n rs])).
Proof.
  intros Hnd. rewrite map_app. simpl.
  apply NoDup_snoc; [exact Hnd|apply freshId_not_in].
Qed.

Lemma find_hasId_of_In docs doc :
  NoDup (map id docs) -> In doc docs ->
  List.find (hasId (id doc)) docs = Some doc.
Proof.
  intros Hnd Hin.
  destruct (List.find (hasId (id doc)) docs) as [d|] eqn:E.
  - f_equal. apply find_some in E as [Hd Hid]. apply hasId_true in Hid.
    now apply unique_id_same with docs.
  - apply (find_none _ _ E) in Hin. unfold hasId in Hin.
    now rewrite Nat.eqb_refl in Hin.
Qed.

Lemma Forall_replace (P : IngredientEntry -> Prop) doc docs :
  Forall P docs -> P doc -> Forall P (replace doc docs).
Proof.
  intros Hall Hdoc. induction Hall as [|d docs Hd Hall IH]; simpl;
    [constructor|].
  destruct (hasId (id doc) d); constructor; assumption.
Qed.

Lemma Forall_remove (P : IngredientEntry -> Prop) i docs :
  Forall P docs -> Forall P (remove i docs).
Proof.
  intros Hall. induction Hall as [|d docs Hd Hall IH]; simpl;
    [constructor|].
  destruct (hasId i d); [assumption|now constructor].
Qed.

Lemma Forall_find (P : IngredientEntry -> Prop) (f : IngredientEntry -> bool)
  docs doc :
  Forall P docs -> List.find f docs = Some doc -> P doc.
Proof.
  intros Hall Hfind. apply find_some in Hfind as [Hin _].
  rewrite Forall_forall in Hall. now apply Hall.
Qed.

(** The fragments the methods are made of. *)
Ltac run :=
  unfold add, push, update, addRating, updateRating, removeRating,
    mergeDuplicates, delete, findByIdAndUpdate, findByIdAndDelete, bind,
    findOne, findById, gets, throw, save, create, ret;
  cbv beta.

Ltac cases :=
  repeat match goal with
    | |- context [match List.find ?f ?l with _ => _ end] =>
        let E := fresh "E" in destruct (List.find f l) eqn:E
    | |- context [if existsb ?f ?l then _ else _] =>
        let E := fresh "E" in destruct (existsb f l) eqn:E
    | |- context [match ?o with undefined => _ | _ => _ end] =>
        is_var o; destruct o
    | |- context [match Updates.name ?u with _ => _ end] =>
        destruct (Updates.name u)
    | |- context [match Updates.ratings ?u with _ => _ end] =>
        destruct (Updates.ratings u)
    | |- context [if String.eqb ?n "" then _ else _] =>
        destruct (String.eqb n "")
    end;
  cbn [fst snd].

(** Every method that writes keeps the ids of the collection distinct. *)
Theorem ingredient_ids_stay_unique (docs : Collection) :
  NoDup (map id docs) ->
  (forall n rs, NoDup (map id (snd (add n rs docs))))
  /\ (forall n sp h nt, NoDup (map id (snd (push n sp h nt docs))))
  /\ (forall i u, NoDup (map id (snd (update i u docs))))
  /\ (forall i sp h nt, NoDup (map id (snd (addRating i sp h nt docs))))
  /\ (forall i sp h nt, NoDup (map id (snd (updateRating i sp h nt docs))))
  /\ (forall i sp, NoDup (map id (snd (removeRating i sp docs))))
  /\ (forall i j, NoDup (map id (snd (mergeDuplicates i j docs))))
  /\ (forall i, NoDup (map id (snd (delete i docs)))).
Proof.
  intros Hnd.
  repeat split; intros; run; cases;
    rewrite ?map_id_replace;
    auto using unique_ids_create, unique_ids_remove.
  - apply unique_ids_remove. now rewrite map_id_replace.
Qed.

Lemma spliceFirst_species sp (rs : list Rating) x :
  In x (map species (spliceFirst sp rs)) -> In x (map species rs).
Proof.
  induction rs as [|r rs IH]; simpl; [tauto|].
  destruct (isFor sp r); simpl; intuition.
Qed.

Lemma spliceFirst_unique sp (rs : list Rating) :
  NoDup (map species rs) -> NoDup (map species (spliceFirst sp rs)).
Proof.
  induction rs as [|r rs IH]; simpl; intros Hnd; [constructor|].
  inversion Hnd as [|? ? Hnotin Hnd']; subst.
  destruct (isFor sp r); simpl; [exact Hnd'|].
  constructor; [|now apply IH].
  intros Hin. apply Hnotin. now apply spliceFirst_species with sp.
Qed.

Lemma mergeRatings_unique (dup acc : list Rating) :
  NoDup (map species acc) -> NoDup (map species (mergeRatings acc dup)).
Proof.
  unfold mergeRatings. revert acc.
  induction dup as [|dr dup IH]; simpl; intros acc Hnd; [exact Hnd|].
  apply IH.
  change (existsb (fun pr => Species_eqb (species pr) (species dr)) acc)
    with (existsb (isFor (species dr)) acc).
  destruct (existsb (isFor (species dr)) acc) eqn:E; [exact Hnd|].
  rewrite map_app. simpl. apply NoDup_snoc; [exact Hnd|].
  rewrite <- existsb_isFor. congruence.
Qed.

Lemma appended_unique sp h nt (rs : list Rating) :
  NoDup (map species rs) ->
  ~ In sp (map species rs) ->
  NoDup (map species (rs ++ [mkRating sp h nt])).
Proof. intros. rewrite map_app. simpl. now apply NoDup_snoc. Qed.

(** The methods that write ratings one at a time keep "at most one rating
    per species" in every entry: [push], [addRating], [updateRating],
    [removeRating], [mergeDuplicates] and [delete]. ([add] and [update]
    store the ratings they are handed, whatever they are.) *)
Theorem ratings_stay_unique_per_species (docs : Collection) :
  ratedOnce docs ->
  (forall n sp h nt, ratedOnce (snd (push n sp h nt docs)))
  /\ (forall i sp h nt, ratedOnce (snd (addRating i sp h nt docs)))
  /\ (forall i sp h nt, ratedOnce (snd (updateRating i sp h nt docs)))
  /\ (forall i sp, ratedOnce (snd (removeRating i sp docs)))
  /\ (forall i j, ratedOnce (snd (mergeDuplicates i j docs)))
  /\ (forall i, ratedOnce (snd (delete i docs))).
Proof.
  unfold ratedOnce. intros Hall.
  assert (Hread : forall (f : IngredientEntry -> bool) d,
             List.find f docs = Some d -> NoDup (map species (ratings d)))
    by (intros f d H;
        exact (Forall_find
                 (fun doc => NoDup (map species (ratings doc)))
                 f docs d Hall H)).
  repeat split; intros; run; cases;
    try assumption;
    try (apply Forall_remove);
    try (apply Forall_replace; [assumption|]);
    try assumption; simpl;
    rewrite ?map_species_assignFirst;
    eauto using spliceFirst_unique, mergeRatings_unique.
  all: try (apply Forall_app; split; [assumption|];
            repeat constructor; simpl; tauto).
  all: apply appended_unique; [eauto|];
    first [ now apply find_isFor_none
          | rewrite <- existsb_isFor; congruence ].
Qed.

End IngredientInvariants.

(** ** Ingredient.update, addRating, updateRating, removeRating, delete *)

Section IngredientWrites.
Import Ingredient.

Implicit Types (docs : Collection) (doc : IngredientEntry)
  (rs : list Rating).

Lemma find_app_cases {A} (f : A -> bool) (l l' : list A) :
  List.find f (l ++ l')
  = match List.find f l with
    | Some x => Some x
    | None => List.find f l'
    end.
Proof.
  induction l as [|x l IH]; simpl; [reflexivity|].
  now destruct (f x).
Qed.


Lemma isFor_true sp r : isFor sp r = true <-> species r = sp.
Proof. unfold isFor. apply Species_eqb_eq. Qed.


Lemma remove_absent i docs :
  List.find (hasId i) docs = None -> remove i docs = docs.
Proof.
  induction docs as [|d docs IH]; simpl; [reflexivity|].
  destruct (hasId i d); [discriminate|]. intros H. now rewrite IH.
Qed.







(** [Ingredient.update] looks the id up before it looks at the updates: a
    missing id gives [NotFound] whatever the updates, an existing one with
    neither [name] nor [ratings] gives [NoUpdatesProvided], and in both
    cases the collection is left alone. Otherwise the entry takes the
    fields supplied and keeps the other, is what the id resolves to
    afterwards, and every other id resolves as before. *)
Theorem ingredient_update_outcomes (i : nat) (u : Updates.t)
  (docs : Collection) :
  (List.find (hasId i) docs = None ->
   update i u docs = (Throw NotFound, docs))
  /\ (forall doc, List.find (hasId i) docs = Some doc ->
        Updates.name u = None -> Updates.ratings u = None ->
        update i u docs = (Throw NoUpdatesProvided, docs))
  /\ (forall doc, List.find (hasId i) docs = Some doc ->
        Updates.name u <> None \/ Updates.ratings u <> None ->
        let updated :=
          mkEntry i (orElse (Updates.name u) (name doc))
            (orElse (Updates.ratings u) (ratings doc)) in
        fst (update i u docs) = Ok (Some updated)
        /\ List.find (hasId i) (snd (update i u docs)) = Some updated
        /\ forall j, j <> i ->
             List.find (hasId j) (snd (update i u docs))
             = List.find (hasId j) docs).
Proof.
  split; [|split].
  - intros H. unfold update, bind, findById, gets, throw. now rewrite H.
  - intros doc H Hn Hr. unfold update, bind, findById, gets, throw.
    now rewrite H, Hn, Hr.
  - intros doc H Hsome updated.
    assert (Hid : id doc = i) by now apply findById_id with docs.
    assert (Hrun : update i u docs
                   = (Ok (Some updated), replace updated docs)).
    { unfold update, bind, findById, gets, throw, findByIdAndUpdate.
      cbv beta. rewrite H. cbv iota beta.
      destruct (Updates.name u) eqn:En, (Updates.ratings u) eqn:Er;
        try (rewrite H; unfold updated, applyUpdate;
             rewrite En, Er, Hid; reflexivity).
      destruct Hsome; congruence. }
    rewrite Hrun. simpl. split; [reflexivity|]. split.
    + change i with (id updated).
      apply find_replace_same with (old := doc). simpl. exact H.
    + intros j Hj. now apply find_replace_other.
Qed.

(** [Ingredient.update] does not look for the new name among the other
    ingredients: renaming one ingredient to the name of another succeeds
    and leaves two ids that resolve to entries of the same name, a name
    [add] refuses. *)
Theorem ingredient_update_can_repeat_a_name (docs : Collection)
  (i j : nat) (a b : IngredientEntry) :
  List.find (hasId i) docs = Some a ->
  List.find (hasId j) docs = Some b ->
  i <> j ->
  let renamed := mkEntry i (name b) (ratings a) in
  let docs' := snd (update i (Updates.make (Some (name b)) None) docs) in
  fst (update i (Updates.make (Some (name b)) None) docs)
  = Ok (Some renamed)
  /\ List.find (hasId i) docs' = Some renamed
  /\ List.find (hasId j) docs' = Some b
  /\ forall given_ratings,
       fst (add (name b) given_ratings docs) = Throw AlreadyExists.
Proof.
  intros Ha Hb Hne renamed docs'.
  assert (Hid : id a = i) by now apply findById_id with docs.
  assert (Hrun : update i (Updates.make (Some (name b)) None) docs
                 = (Ok (Some renamed), replace renamed docs)).
  { unfold update, bind, findById, gets, findByIdAndUpdate. cbv beta.
    rewrite Ha. simpl. rewrite Ha. unfold applyUpdate. simpl.
    now rewrite Hid. }
  unfold docs'. rewrite Hrun. simpl. repeat split.
  - change i with (id renamed).
    apply find_replace_same with (old := a). exact Ha.
  - rewrite find_replace_other by (simpl; congruence). exact Hb.
  - intros given_ratings. unfold add, bind, findOne, gets, throw.
    destruct (List.find (hasName (name b)) docs) as [d|] eqn:E;
      [reflexivity|].
    apply find_some in Hb as [Hin _]. apply (find_none _ _ E) in Hin.
    unfold hasName in Hin. now rewrite String.eqb_refl in Hin.
Qed.





(** [Ingredient.delete] throws [NotFound] for an id that does not resolve
    and leaves the collection alone; otherwise it returns the entry and
    takes it out, every other id resolves as before, and (ids being unique)
    the id no longer resolves, so that deleting it again throws
    [NotFound]. *)
Theorem ingredient_delete_outcomes (i : nat) (docs : Collection) :
  (List.find (hasId i) docs = None ->
   delete i docs = (Throw NotFound, docs))
  /\ (forall doc, List.find (hasId i) docs = Some doc ->
        delete i docs = (Ok doc, remove i docs)
        /\ (forall j, j <> i ->
              List.find (hasId j) (remove i docs)
              = List.find (hasId j) docs)
        /\ (NoDup (map id docs) ->
            List.find (hasId i) (remove i docs) = None
            /\ delete i (remove i docs)
               = (Throw NotFound, remove i docs))).
Proof.
  assert (Habsent : forall l, List.find (hasId i) l = None ->
                              delete i l = (Throw NotFound, l)).
  { intros l H.
    unfold delete, bind, findByIdAndDelete, throw. rewrite H.
    now rewrite remove_absent. }
  split; [exact (Habsent docs)|].
  intros doc H. split; [|split].
  - unfold delete, bind, findByIdAndDelete, ret. now rewrite H.
  - intros j Hj. apply find_remove_other. congruence.
  - intros Hnd. pose proof (find_remove_same i docs Hnd) as Hgone.
    split; [exact Hgone|now apply Habsent].
Qed.


End IngredientWrites.

(** ** Repeating Ingredient.push and pushMany *)

Section PushAgain.
Import Ingredient.

Implicit Types (docs : Collection) (doc : IngredientEntry).

Lemma find_hasName_replace_same n doc' doc docs :
  NoDup (map id docs) ->
  List.find (hasName n) docs = Some doc ->
  name doc' = n -> id doc' = id doc ->
  List.find (hasName n) (replace doc' docs) = Some doc'.
Proof.
  intros Hnd Hfind Hname Hid. apply hasName_true in Hname.
  induction docs as [|d docs IH]; simpl in *; [discriminate|].
  inversion Hnd as [|? ? Hnotin Hnd']; subst.
  destruct (hasName n d) eqn:En.
  - injection Hfind as ->. unfold hasId at 1. rewrite Hid, Nat.eqb_refl.
    simpl. now rewrite Hname.
  - destruct (hasId (id doc') d) eqn:Ed.
    + exfalso. apply Hnotin. apply hasId_true in Ed. rewrite Ed, Hid.
      apply find_some in Hfind as [Hin _]. now apply in_map.
    + simpl. rewrite En. now apply IH.
Qed.

Lemma find_hasName_replace_other n doc' doc docs :
  NoDup (map id docs) ->
  In doc docs -> id doc' = id doc ->
  name doc <> n -> name doc' <> n ->
  List.find (hasName n) (replace doc' docs) = List.find (hasName n) docs.
Proof.
  intros Hnd Hin Hid Hold Hnew.
  assert (Hn : forall x, name x <> n -> hasName n x = false).
  { intros x Hx. apply not_true_is_false. now rewrite hasName_true. }
  induction docs as [|d docs IH]; simpl in *; [reflexivity|].
  inversion Hnd as [|? ? Hnotin Hnd']; subst.
  destruct (hasId (id doc') d) eqn:Ed; simpl.
  - apply hasId_true in Ed.
    assert (d = doc).
    { destruct Hin as [Hin|Hin]; [exact Hin|].
      exfalso. apply Hnotin. rewrite Ed, Hid. now apply in_map. }
    subst d. now rewrite (Hn doc Hold), (Hn doc' Hnew).
  - destruct Hin as [->|Hin].
    + unfold hasId in Ed. rewrite Hid, Nat.eqb_refl in Ed. discriminate.
    + now rewrite IH.
Qed.

Lemma assignFirst_nothing sp (rs : list Rating) :
  assignFirst sp undefined undefined rs = rs.
Proof.
  induction rs as [|r rs IH]; simpl; [reflexivity|].
  destruct (isFor sp r); [now destruct r|now rewrite IH].
Qed.

(** What [push] does to the collection, by what [findOne] finds. *)
Lemma push_by_cases n sp h nt docs :
  (List.find (hasName n) docs = None /\ n = ""
   /\ snd (push n sp h nt docs) = docs)
  \/ (List.find (hasName n) docs = None /\ n <> ""
      /\ snd (push n sp h nt docs)
         = docs ++ [mkEntry (freshId docs) n
                      [mkRating sp (orNull h) (orNull nt)]])
  \/ (exists ingredient rs,
        List.find (hasName n) docs = Some ingredient
        /\ (forall sp', In sp' (map species (ratings ingredient)) ->
                        In sp' (map species rs))
        /\ In sp (map species rs)
        /\ snd (push n sp h nt docs)
           = replace (withRatings ingredient rs) docs).
Proof.
  unfold push, bind, findOne, gets, create, save.
  destruct (List.find (hasName n) docs) as [ingredient|] eqn:E.
  - right; right.
    destruct (List.find (isFor sp) (ratings ingredient)) as [r|] eqn:Er.
    + exists ingredient, (assignFirst sp h nt (ratings ingredient)).
      rewrite map_species_assignFirst. repeat split; try tauto.
      apply find_isFor in Er as [Hr <-]. now apply in_map.
    + exists ingredient,
        (ratings ingredient ++ [mkRating sp (orNull h) (orNull nt)]).
      rewrite map_app. simpl. repeat split; try tauto.
      * intros sp' H. apply in_app_iff. tauto.
      * apply in_app_iff. simpl. tauto.
  - destruct (String.eqb n "") eqn:En.
    + left. apply String.eqb_eq in En. tauto.
    + right; left. apply String.eqb_neq in En. tauto.
Qed.

(** After [push] the name is settled for the species, unless it is the
    empty name and no ingredient carries it: then it still carries none. *)
Lemma push_settles n sp h nt docs :
  NoDup (map id docs) ->
  settled n sp (snd (push n sp h nt docs))
  \/ (n = "" /\ List.find (hasName n) (snd (push n sp h nt docs)) = None).
Proof.
  intros Hnd. unfold settled.
  destruct (push_by_cases n sp h nt docs)
    as [(E & Hn & ->)|[(E & Hn & ->)|(ingredient & rs & E & _ & Hsp & ->)]].
  - right. now split.
  - left. eexists. rewrite find_app_cases, E. simpl.
    unfold hasName at 1. simpl.
    rewrite String.eqb_refl. split; [reflexivity|]. simpl.
    unfold isFor. simpl. now rewrite Species_eqb_refl.
  - left. exists (withRatings ingredient rs). split.
    + apply find_hasName_replace_same with (doc := ingredient);
        try assumption; [|reflexivity].
      simpl. apply find_some in E as [_ E]. now apply hasName_true.
    + now apply existsb_isFor.
Qed.

Lemma push_keeps_settled n sp h nt m sp' docs :
  NoDup (map id docs) ->
  settled m sp' docs -> settled m sp' (snd (push n sp h nt docs)).
Proof.
  intros Hnd (w & Hw & Hrated). unfold settled.
  destruct (push_by_cases n sp h nt docs)
    as [(E & Hn & ->)|[(E & Hn & ->)|(ingredient & rs & E & Hkeep & _ & ->)]].
  - now exists w.
  - exists w. now rewrite find_app_cases, Hw.
  - pose proof (find_some _ _ E) as [Hin Hname].
    apply hasName_true in Hname.
    destruct (string_dec m n) as [->|Hne].
    + assert (w = ingredient) by congruence. subst w.
      exists (withRatings ingredient rs). split.
      * now apply find_hasName_replace_same with (doc := ingredient).
      * apply existsb_isFor, Hkeep. now apply existsb_isFor.
    + exists w. split; [|exact Hrated].
      rewrite find_hasName_replace_other with (doc := ingredient);
        try assumption; try reflexivity; simpl; congruence.
Qed.

(** No [push] stores an ingredient of the empty name. *)
Lemma push_keeps_unnamed n sp h nt docs :
  NoDup (map id docs) ->
  List.find (hasName "") docs = None ->
  List.find (hasName "") (snd (push n sp h nt docs)) = None.
Proof.
  intros Hnd Hnone.
  destruct (push_by_cases n sp h nt docs)
    as [(E & Hn & ->)|[(E & Hn & ->)|(ingredient & rs & E & _ & _ & ->)]].
  - exact Hnone.
  - rewrite find_app_cases, Hnone. simpl.
    replace (hasName "" (mkEntry (freshId docs) n
                           [mkRating sp (orNull h) (orNull nt)]))
      with false; [reflexivity|].
    symmetry. apply not_true_is_false. now rewrite hasName_true.
  - pose proof (find_some _ _ E) as [Hin Hname].
    apply hasName_true in Hname.
    assert (Hne : n <> "") by (intros ->; congruence).
    rewrite find_hasName_replace_other with (doc := ingredient);
      try assumption; try reflexivity; simpl; congruence.
Qed.

(** A [push] without values changes nothing when the first ingredient of
    the name already rates the species, and when the name is empty and no
    ingredient carries it. *)
Lemma push_idle n sp docs :
  NoDup (map id docs) ->
  settled n sp docs \/ (n = "" /\ List.find (hasName n) docs = None) ->
  snd (push n sp undefined undefined docs) = docs.
Proof.
  intros Hnd [(w & Hw & Hrated)|[-> Hnone]];
    unfold push, bind, findOne, gets, save, create.
  - rewrite Hw.
    destruct (List.find (isFor sp) (ratings w)) as [r|] eqn:Er.
    + rewrite assignFirst_nothing, withRatings_same. simpl.
      apply replace_unchanged. apply find_hasId_of_In; [exact Hnd|].
      now apply find_some in Hw.
    + apply find_isFor_none in Er. apply existsb_isFor in Hrated.
      contradiction.
  - now rewrite Hnone.
Qed.

Lemma oneByOne_names_idle names sp docs n :
  NoDup (map id docs) ->
  In n names
  \/ settled n sp docs \/ (n = "" /\ List.find (hasName n) docs = None) ->
  settled n sp (oneByOne (pushMany (Names names sp)) docs)
  \/ (n = ""
      /\ List.find (hasName n) (oneByOne (pushMany (Names names sp)) docs)
         = None).
Proof.
  simpl. revert docs.
  induction names as [|m names IH]; simpl; intros docs Hnd H.
  - tauto.
  - apply IH; [now apply push_keeps_ids_unique|].
    destruct H as [[->|H]|[H|[-> H]]].
    + right. now apply push_settles.
    + now left.
    + right; left. now apply push_keeps_settled.
    + right; right. split; [reflexivity|]. now apply push_keeps_unnamed.
Qed.

Lemma oneByOne_idle names sp docs :
  NoDup (map id docs) ->
  (forall n, In n names ->
     settled n sp docs
     \/ (n = "" /\ List.find (hasName n) docs = None)) ->
  oneByOne (pushMany (Names names sp)) docs = docs.
Proof.
  simpl. intros Hnd H.
  induction names as [|m names IH]; simpl; [reflexivity|].
  rewrite push_idle; [|exact Hnd|apply H; now left].
  apply IH. intros n Hn. apply H. now right.
Qed.

(** ** Pushes left to run together *)

Lemma setRatings_replace ingredient rs docs :
  List.find (hasId (id ingredient)) docs = Some ingredient ->
  setRatings (id ingredient) rs docs
  = replace (withRatings ingredient rs) docs.
Proof.
  induction docs as [|d docs IH]; simpl; [reflexivity|].
  destruct (hasId (id ingredient) d) eqn:E; intros H.
  - now injection H as ->.
  - now rewrite IH.
Qed.

Lemma pushRating_replace ingredient r docs :
  List.find (hasId (id ingredient)) docs = Some ingredient ->
  pushRating (id ingredient) r docs
  = replace (withRatings ingredient (ratings ingredient ++ [r])) docs.
Proof.
  induction docs as [|d docs IH]; simpl; [reflexivity|].
  destruct (hasId (id ingredient) d) eqn:E; intros H.
  - now injection H as ->.
  - now rewrite IH.
Qed.

Lemma names_apart (p q : PushEntry) rest :
  ~ In (p_name p) (map p_name rest) -> In q rest -> p_name p <> p_name q.
Proof. intros Hnotin Hq Heq. apply Hnotin. rewrite Heq. now apply in_map. Qed.

(** Promises for names that differ two by two write documents that differ
    two by two: each [save] finds the document as its [findOne] read it.
    The batch leaves what the same calls leave when each is awaited before
    the next is made, and a promise rejects only for a new ingredient of
    the empty name. *)
Lemma settle_from promises :
  forall docs cur rej wr,
    NoDup (map id cur) ->
    NoDup (map p_name promises) ->
    (forall p, In p promises ->
       List.find (hasName (p_name p)) cur
       = List.find (hasName (p_name p)) docs) ->
    (forall p ingredient, In p promises ->
       List.find (hasName (p_name p)) cur = Some ingredient ->
       existsb (Nat.eqb (id ingredient)) wr = false) ->
    let batch :=
      fold_left finish (map (fun p => started p docs) promises)
        (mkBatch rej wr cur) in
    stored batch = oneByOne promises cur
    /\ forall e, In e (rejections batch) ->
         In e rej \/ (e = ValidationError /\ In "" (map p_name promises)).
Proof.
  induction promises as [|p rest IH]; intros docs cur rej wr Hnd Hnames
    Hsame Hwr; [simpl; tauto|].
  inversion Hnames as [|? ? Hnotin Hnames']; subst.
  pose proof (Hsame p (or_introl eq_refl)) as Hp.
  pose proof (Hwr p) as Hwp.
  assert (Hlater : forall (b : Batch) after,
            (stored b = after
             /\ forall e, In e (rejections b) ->
                  In e rej
                  \/ (e = ValidationError /\ In "" (map p_name rest))) ->
            stored b = after
            /\ forall e, In e (rejections b) ->
                 In e rej
                 \/ (e = ValidationError
                     /\ In "" (map p_name (p :: rest)))).
  { intros b after [Hs Hr]. split; [exact Hs|].
    intros e He. destruct (Hr e He) as [H|[H1 H2]]; [now left|].
    right. split; [exact H1|now right]. }
  cbv zeta. cbn [map fold_left oneByOne].
  remember (started p docs) as st eqn:Hst.
  unfold started in Hst. rewrite <- Hp in Hst.
  unfold push, bind, findOne, gets, create, save.
  destruct (List.find (hasName (p_name p)) cur) as [ingredient|] eqn:E.
  - pose proof (find_some _ _ E) as [Hin Hname].
    apply hasName_true in Hname.
    assert (Hid : List.find (hasId (id ingredient)) cur = Some ingredient)
      by now apply find_hasId_of_In.
    assert (Hother : forall q rs, In q rest ->
              List.find (hasName (p_name q))
                (replace (withRatings ingredient rs) cur)
              = List.find (hasName (p_name q)) cur).
    { intros q rs Hq.
      pose proof (names_apart p q rest Hnotin Hq) as Hne.
      apply find_hasName_replace_other with (doc := ingredient);
        try assumption; try reflexivity; simpl; congruence. }
    assert (Hfresh : forall q rs other, In q rest ->
              List.find (hasName (p_name q))
                (replace (withRatings ingredient rs) cur) = Some other ->
              existsb (Nat.eqb (id other)) (id ingredient :: wr) = false).
    { intros q rs other Hq Hfound. rewrite Hother in Hfound by exact Hq.
      pose proof (names_apart p q rest Hnotin Hq) as Hne.
      simpl. rewrite (Hwr q other (or_intror Hq) Hfound), orb_false_r.
      apply Nat.eqb_neq. intros Heq.
      apply find_some in Hfound as [Hin' Hname'].
      apply hasName_true in Hname'.
      assert (other = ingredient)
        by now apply unique_id_same with cur.
      congruence. }
    destruct (List.find (isFor (p_species p)) (ratings ingredient));
      subst st.
    + cbn [finish written stored rejections snd]. cbv beta.
      rewrite (Hwp ingredient (or_introl eq_refl) eq_refl).
      rewrite setRatings_replace by exact Hid.
      apply Hlater, IH; try assumption.
      * now rewrite map_id_replace.
      * intros q Hq. rewrite Hother by exact Hq. apply Hsame. now right.
      * intros q other Hq. now apply Hfresh.
    + cbn [finish written stored rejections snd]. cbv beta.
      rewrite pushRating_replace by exact Hid.
      apply Hlater, IH; try assumption.
      * now rewrite map_id_replace.
      * intros q Hq. rewrite Hother by exact Hq. apply Hsame. now right.
      * intros q other Hq. now apply Hfresh.
  - subst st. cbn [finish written stored rejections snd]. cbv beta.
    destruct (String.eqb (p_name p) "") eqn:En.
    + apply String.eqb_eq in En. cbn [snd].
      destruct (IH docs cur (rej ++ [ValidationError]) wr) as [Hs Hr];
        try assumption.
      * intros q Hq. apply Hsame. now right.
      * intros q other Hq. apply Hwr. now right.
      * split; [exact Hs|]. intros e He.
        destruct (Hr e He) as [H|[H1 H2]].
        -- apply in_app_iff in H as [H|[<-|[]]]; [now left|].
           right. split; [reflexivity|]. now left.
        -- right. split; [exact H1|now right].
    + assert (Hother : forall q, In q rest ->
                List.find (hasName (p_name q))
                  (cur ++ [mkEntry (freshId cur) (p_name p)
                             [mkRating (p_species p)
                                (orNull (p_healthRating p))
                                (orNull (p_notes p))]])
                = List.find (hasName (p_name q)) cur).
      { intros q Hq.
        pose proof (names_apart p q rest Hnotin Hq) as Hne.
        rewrite find_app_cases.
        destruct (List.find (hasName (p_name q)) cur); [reflexivity|].
        simpl. unfold hasName. simpl.
        now apply String.eqb_neq in Hne as ->. }
      cbn [snd]. apply Hlater, IH; try assumption.
      * now apply unique_ids_create.
      * intros q Hq. rewrite Hother by exact Hq. apply Hsame. now right.
      * intros q other Hq Hfound. rewrite Hother in Hfound by exact Hq.
        apply (Hwr q other); [now right|exact Hfound].
Qed.

Lemma settle_distinct promises docs :
  NoDup (map id docs) ->
  NoDup (map p_name promises) ->
  settle promises docs = oneByOne promises docs.
Proof.
  intros Hnd Hnames. unfold settle, settleAll.
  apply settle_from; try assumption; reflexivity.
Qed.

Lemma rejected_distinct promises docs :
  NoDup (map id docs) ->
  NoDup (map p_name promises) ->
  ~ In "" (map p_name promises) ->
  rejected promises docs = [].
Proof.
  intros Hnd Hnames Hnamed. unfold rejected, settleAll.
  destruct (settle_from promises docs docs [] [] Hnd Hnames) as [_ Hr];
    try reflexivity.
  destruct (fold_left finish _ _) as [[|e es] wr out]; [reflexivity|].
  destruct (Hr e (or_introl eq_refl)) as [[]|[_ H]]. contradiction.
Qed.

Lemma names_of_pushMany names sp :
  map p_name (pushMany (Names names sp)) = names.
Proof. simpl. rewrite map_map. simpl. apply map_id. Qed.

Lemma settle_names names sp docs :
  NoDup (map id docs) ->
  NoDup names ->
  settle (pushMany (Names names sp)) docs
  = oneByOne (pushMany (Names names sp)) docs.
Proof.
  intros Hnd Hnames. apply settle_distinct; [exact Hnd|].
  now rewrite names_of_pushMany.
Qed.

(** The pushes of [pushMany({ names, species })] for names that differ two
    by two, left to run together and, once they have settled, started a
    second time, change nothing: on a collection with unique ids the second
    batch leaves what the first left. *)
Theorem pushMany_names_twice (names : list string) (sp : Species)
  (docs : Collection) :
  NoDup (map id docs) ->
  NoDup names ->
  settle (pushMany (Names names sp))
    (settle (pushMany (Names names sp)) docs)
  = settle (pushMany (Names names sp)) docs.
Proof.
  intros Hnd Hnames.
  rewrite (settle_names names sp docs Hnd Hnames).
  rewrite settle_names;
    [|now apply oneByOne_keeps_ids_unique|exact Hnames].
  apply oneByOne_idle; [now apply oneByOne_keeps_ids_unique|].
  intros n Hn. apply oneByOne_names_idle; [exact Hnd|now left].
Qed.


Lemma getAll_In docs doc sp fetched :
  In doc docs -> getOne doc sp = Ok fetched -> In fetched (getAll docs sp).
Proof.
  intros Hin Hget. induction docs as [|d docs IH]; simpl in *; [tauto|].
  destruct Hin as [->|Hin].
  - rewrite Hget. now left.
  - destruct (getOne d sp); [right|]; now apply IH.
Qed.

(** Once the pushes of [pushMany({ names, species })] for names that differ
    two by two have settled on a collection with unique ids, [getAll] for
    the species yields an instance for every name of the list that is not
    empty. *)
Theorem getAll_after_pushMany (names : list string) (sp : Species)
  (docs : Collection) (n : string) :
  NoDup (map id docs) ->
  NoDup names ->
  In n names ->
  n <> "" ->
  exists fetched,
    In fetched (getAll (settle (pushMany (Names names sp)) docs) sp)
    /\ Instance.name fetched = n
    /\ Instance.species fetched = sp.
Proof.
  intros Hnd Hnames Hin Hn.
  rewrite (settle_names names sp docs Hnd Hnames).
  destruct (oneByOne_registers_names names sp docs n Hnd Hin Hn)
    as (doc & Hdoc & Hname & Hrated).
  apply getOne_ok_iff in Hrated as [fetched Hget].
  exists fetched. split; [now apply getAll_In with doc|].
  apply getOne_ok in Hget as [r [Hr ->]]. simpl.
  split; [exact Hname|]. now apply find_isFor in Hr.
Qed.

Lemma freshId_after_create docs n rs :
  freshId (docs ++ [mkEntry (freshId docs) n rs]) = S (freshId docs).
Proof.
  unfold freshId. rewrite map_app, list_max_app. simpl. lia.
Qed.

Lemma pushRating_twice ingredient r docs :
  List.find (hasId (id ingredient)) docs = Some ingredient ->
  pushRating (id ingredient) r (pushRating (id ingredient) r docs)
  = replace (withRatings ingredient (ratings ingredient ++ [r; r])) docs.
Proof.
  induction docs as [|d docs IH]; simpl; [reflexivity|].
  destruct (hasId (id ingredient) d) eqn:E; intros H; simpl.
  - injection H as ->. unfold hasId at 1. simpl. rewrite Nat.eqb_refl.
    unfold withRatings. simpl. now rewrite <- app_assoc.
  - rewrite E. now rewrite IH.
Qed.

(** A list that names an ingredient twice, the name not empty, its pushes
    left to run together on a collection with unique ids. Both pushes read
    the collection before either writes.
    - A name that is not stored is created twice.
    - Where the first ingredient of the name rates the species, the first
      [save] writes the ratings back and the second is rejected with
      [VersionError]; the collection is as it was.
    - Where it does not rate the species, the rating is pushed twice. *)
Theorem pushMany_repeated_name (docs : Collection) (n : string)
  (sp : Species) :
  NoDup (map id docs) ->
  n <> "" ->
  (List.find (hasName n) docs = None ->
     settle (pushMany (Names [n; n] sp)) docs
     = docs ++ [mkEntry (freshId docs) n [mkRating sp None None];
                mkEntry (S (freshId docs)) n [mkRating sp None None]]
     /\ rejected (pushMany (Names [n; n] sp)) docs = [])
  /\ (forall ingredient,
        List.find (hasName n) docs = Some ingredient ->
        In sp (map species (ratings ingredient)) ->
        settle (pushMany (Names [n; n] sp)) docs = docs
        /\ rejected (pushMany (Names [n; n] sp)) docs = [VersionError])
  /\ (forall ingredient,
        List.find (hasName n) docs = Some ingredient ->
        ~ In sp (map species (ratings ingredient)) ->
        settle (pushMany (Names [n; n] sp)) docs
        = replace
            (withRatings ingredient
               (ratings ingredient
                  ++ [mkRating sp None None; mkRating sp None None]))
            docs
        /\ rejected (pushMany (Names [n; n] sp)) docs = []).
Proof.
  intros Hnd Hn.
  unfold settle, rejected, settleAll, pushMany, started.
  cbn [map fold_left p_name p_species p_healthRating p_notes orNull].
  split; [|split].
  - intros Hnone. rewrite Hnone. cbn [finish stored rejections written].
    apply String.eqb_neq in Hn. rewrite !Hn.
    cbn [stored rejections]. rewrite freshId_after_create.
    now rewrite <- app_assoc.
  - intros ingredient Hfound Hrated. rewrite Hfound.
    assert (Hid : List.find (hasId (id ingredient)) docs = Some ingredient)
      by (apply find_hasId_of_In; [exact Hnd|];
          now apply find_some in Hfound).
    destruct (List.find (isFor sp) (ratings ingredient)) eqn:Er;
      [|now apply find_isFor_none in Er].
    rewrite assignFirst_nothing.
    cbn [finish stored rejections written existsb].
    cbn [finish stored rejections written existsb].
    rewrite Nat.eqb_refl. cbn [orb stored rejections app].
    rewrite (setRatings_replace ingredient _ docs Hid), withRatings_same.
    now rewrite (replace_unchanged ingredient docs Hid).
  - intros ingredient Hfound Hrated. rewrite Hfound.
    assert (Hid : List.find (hasId (id ingredient)) docs = Some ingredient)
      by (apply find_hasId_of_In; [exact Hnd|];
          now apply find_some in Hfound).
    destruct (List.find (isFor sp) (ratings ingredient)) as [r|] eqn:Er.
    + apply find_isFor in Er as [Hin <-]. exfalso. apply Hrated.
      now apply in_map.
    + cbn [finish stored rejections written].
      now rewrite (pushRating_twice ingredient _ docs Hid).
Qed.

End PushAgain.

(** ** More on Ingredient.find *)

Section IngredientFindMore.
Import Ingredient.

Lemma existsb_ratingSatisfies c (rs : list Rating) :
  existsb (ratingSatisfies c) rs = true
  <-> exists r, In r rs /\ ratingSatisfies c r = true.
Proof. apply existsb_exists. Qed.

(** With [minRating] alone, [find] returns, in the order of the collection,
    exactly the ingredients with a rating whose health rating is a number
    not below the bound; with [maxRating] alone, those with one not above
    it. A rating without a health rating meets neither. *)
Theorem find_single_bound (docs : Collection) (bound : Z) :
  (exists keep,
     find (FilterOptions.make None None None undefined (Some bound) None)
       docs = Some (Ok (Many (filter keep docs)))
     /\ forall doc,
          keep doc = true
          <-> exists r v, In r (ratings doc)
                /\ healthRating r = Some v /\ (bound <= v)%Z)
  /\ (exists keep,
        find (FilterOptions.make None None None undefined None (Some bound))
          docs = Some (Ok (Many (filter keep docs)))
        /\ forall doc,
             keep doc = true
             <-> exists r v, In r (ratings doc)
                   /\ healthRating r = Some v /\ (v <= bound)%Z).
Proof.
  split.
  - exists (fun doc => existsb (ratingSatisfies (Gte bound)) (ratings doc)).
    split.
    + unfold find. simpl. do 3 f_equal. apply filter_ext. intros doc.
      unfold matches, buildQuery, healthRatingMatches. simpl.
      now rewrite orb_false_r.
    + intros doc. rewrite existsb_exists. split.
      * intros [r [Hin Hsat]]. unfold ratingSatisfies in Hsat.
        destruct (healthRating r) as [v|] eqn:E; [|discriminate].
        exists r, v. repeat split; try assumption. now apply Z.leb_le.
      * intros (r & v & Hin & Hv & Hle). exists r. split; [exact Hin|].
        unfold ratingSatisfies. rewrite Hv. now apply Z.leb_le.
  - exists (fun doc => existsb (ratingSatisfies (Lte bound)) (ratings doc)).
    split.
    + unfold find. simpl. do 3 f_equal. apply filter_ext. intros doc.
      unfold matches, buildQuery, healthRatingMatches. simpl.
      now rewrite orb_false_r.
    + intros doc. rewrite existsb_exists. split.
      * intros [r [Hin Hsat]]. unfold ratingSatisfies in Hsat.
        destruct (healthRating r) as [v|] eqn:E; [|discriminate].
        exists r, v. repeat split; try assumption. now apply Z.leb_le.
      * intros (r & v & Hin & Hv & Hle). exists r. split; [exact Hin|].
        unfold ratingSatisfies. rewrite Hv. now apply Z.leb_le.
Qed.

(** The [species] and [rating] filters are two conditions on the ratings
    array, each met by some rating, not necessarily the same one: [find]
    returns exactly the ingredients that have a rating for the species and
    have a rating, for whatever species, with that health rating. *)
Theorem find_species_and_rating_apart (docs : Collection) (sp : Species)
  (v : Z) :
  exists keep,
    find (FilterOptions.make None None (Some sp) (given v) None None) docs
    = Some (Ok (Many (filter keep docs)))
    /\ forall doc,
         keep doc = true
         <-> (exists r, In r (ratings doc) /\ species r = sp)
             /\ (exists r, In r (ratings doc) /\ healthRating r = Some v).
Proof.
  exists (fun doc =>
            existsb (isFor sp) (ratings doc)
            && existsb (ratingSatisfies (EqTo v)) (ratings doc)).
  split.
  - unfold find. simpl. do 3 f_equal. apply filter_ext. intros doc.
    unfold matches, buildQuery, healthRatingMatches. simpl.
    now rewrite orb_false_r.
  - intros doc. rewrite andb_true_iff, !existsb_exists. split.
    + intros [[r [Hin Hsp]] [r' [Hin' Hsat]]]. split.
      * exists r. split; [exact Hin|]. now apply isFor_true.
      * exists r'. split; [exact Hin'|]. unfold ratingSatisfies in Hsat.
        destruct (healthRating r') as [h|]; [|discriminate].
        apply Z.eqb_eq in Hsat. now subst.
    + intros [[r [Hin Hsp]] [r' [Hin' Hv]]]. split.
      * exists r. split; [exact Hin|]. now apply isFor_true.
      * exists r'. split; [exact Hin'|]. unfold ratingSatisfies.
        rewrite Hv. apply Z.eqb_refl.
Qed.

End IngredientFindMore.

(** ** The product collection *)

Section ProductStore.
Import Product.

Implicit Types (docs : list ProductEntry) (doc p : ProductEntry).

Lemma product_hasId_true i doc : hasId i doc = true <-> id doc = i.
Proof. unfold hasId. apply Nat.eqb_eq. Qed.

Lemma product_findById_id i docs doc :
  List.find (hasId i) docs = Some doc -> id doc = i.
Proof. intros H. apply find_some in H. now apply product_hasId_true. Qed.

Lemma product_map_id_replace doc docs :
  map id (replace doc docs) = map id docs.
Proof.
  induction docs as [|d docs IH]; simpl; [reflexivity|].
  destruct (hasId (id doc) d) eqn:E; simpl.
  - apply product_hasId_true in E. now rewrite E.
  - now rewrite IH.
Qed.

Lemma product_find_replace_same doc docs old :
  List.find (hasId (id doc)) docs = Some old ->
  List.find (hasId (id doc)) (replace doc docs) = Some doc.
Proof.
  induction docs as [|d docs IH]; simpl; [discriminate|].
  destruct (hasId (id doc) d) eqn:E; intros H; simpl.
  - unfold hasId. now rewrite Nat.eqb_refl.
  - rewrite E. now apply IH.
Qed.

Lemma product_find_replace_other i doc docs :
  i <> id doc ->
  List.find (hasId i) (replace doc docs) = List.find (hasId i) docs.
Proof.
  intros Hne. induction docs as [|d docs IH]; simpl; [reflexivity|].
  destruct (hasId (id doc) d) eqn:E; simpl.
  - apply product_hasId_true in E.
    replace (hasId i doc) with false
      by (symmetry; apply Nat.eqb_neq; congruence).
    replace (hasId i d) with false
      by (symmetry; apply Nat.eqb_neq; congruence).
    reflexivity.
  - now rewrite IH.
Qed.

Lemma product_find_remove_other i j docs :
  i <> j ->
  List.find (hasId j) (remove i docs) = List.find (hasId j) docs.
Proof.
  intros Hne. induction docs as [|d docs IH]; simpl; [reflexivity|].
  destruct (hasId i d) eqn:E; simpl.
  - apply product_hasId_true in E.
    replace (hasId j d) with false
      by (symmetry; apply Nat.eqb_neq; congruence).
    reflexivity.
  - now rewrite IH.
Qed.

Lemma product_find_absent i docs :
  ~ In i (map id docs) -> List.find (hasId i) docs = None.
Proof.
  induction docs as [|d docs IH]; simpl; intros H; [reflexivity|].
  destruct (hasId i d) eqn:E.
  - apply product_hasId_true in E. tauto.
  - apply IH. tauto.
Qed.

Lemma product_find_remove_same i docs :
  NoDup (map id docs) -> List.find (hasId i) (remove i docs) = None.
Proof.
  induction docs as [|d docs IH]; simpl; intros Hnd; [reflexivity|].
  inversion Hnd as [|? ? Hnotin Hnd']; subst.
  destruct (hasId i d) eqn:E; simpl.
  - apply product_hasId_true in E. subst i. now apply product_find_absent.
  - rewrite E. now apply IH.
Qed.

Lemma product_remove_absent i docs :
  List.find (hasId i) docs = None -> remove i docs = docs.
Proof.
  induction docs as [|d docs IH]; simpl; [reflexivity|].
  destruct (hasId i d); [discriminate|]. intros H. now rewrite IH.
Qed.

Lemma product_remove_last i docs doc :
  List.find (hasId i) docs = None -> id doc = i ->
  remove i (docs ++ [doc]) = docs.
Proof.
  intros Hnone Hid. induction docs as [|d docs IH]; simpl in *.
  - unfold hasId. now rewrite Hid, Nat.eqb_refl.
  - destruct (hasId i d); [discriminate|]. now rewrite IH.
Qed.

Lemma product_freshId_not_in docs : ~ In (freshId docs) (map id docs).
Proof.
  intros Hin.
  assert (H : Forall (fun k => k <= list_max (map id docs)) (map id docs))
    by now apply list_max_le.
  rewrite Forall_forall in H. apply H in Hin. unfold freshId in Hin. lia.
Qed.

Lemma product_In_remove i docs doc : In doc (remove i docs) -> In doc docs.
Proof.
  induction docs as [|d docs IH]; simpl; [tauto|].
  destruct (hasId i d); simpl; intuition.
Qed.

(** Taking a product out keeps any projection of the collection free of
    repetitions. *)
Lemma product_remove_unique {B} (f : ProductEntry -> B) i docs :
  NoDup (map f docs) -> NoDup (map f (remove i docs)).
Proof.
  induction docs as [|d docs IH]; simpl; intros Hnd; [constructor|].
  inversion Hnd as [|? ? Hnotin Hnd']; subst.
  destruct (hasId i d); simpl; [exact Hnd'|].
  constructor; [|now apply IH].
  intros Hin. apply Hnotin. apply in_map_iff in Hin as [x [Hx Hin]].
  apply in_map_iff. exists x. split; [exact Hx|].
  now apply product_In_remove with i.
Qed.

Lemma product_key_replace doc old docs :
  List.find (hasId (id doc)) docs = Some old ->
  productKey doc = productKey old ->
  map productKey (replace doc docs) = map productKey docs.
Proof.
  intros Hfind Hkey. induction docs as [|d docs IH]; simpl in *;
    [reflexivity|].
  destruct (hasId (id doc) d) eqn:E; simpl.
  - injection Hfind as ->. now rewrite Hkey.
  - now rewrite IH.
Qed.

Lemma keyTaken_In b f sp ls ft s :
  keyTaken b f sp ls ft s
  <-> In (b, f, sp, ls, ft) (map productKey (products s)).
Proof.
  unfold keyTaken. rewrite in_map_iff. unfold productKey.
  split; intros [p H]; exists p.
  - destruct H as (Hin & -> & -> & -> & -> & ->). tauto.
  - destruct H as [H Hin]. injection H as <- <- <- <- <-. tauto.
Qed.

End ProductStore.

(** ** Product.update, delete, addSize and add, further *)

Section ProductWrites.
Import Product.

Implicit Types (s : Store) (p : ProductEntry).

(** [Product.update] looks the id up before it looks at the updates: a
    missing id gives [NotFound] whatever the updates, an existing one with
    no field supplied gives [NoUpdatesProvided], and in both cases the store
    is left alone. Otherwise the product takes every field supplied and
    keeps the others, is what the id resolves to afterwards, and every
    other id resolves as before. *)
Theorem product_update_outcomes (i : nat) (u : Updates.t) (s : Store) :
  (List.find (hasId i) (products s) = None ->
   update i u s = (Throw NotFound, s))
  /\ (forall p, List.find (hasId i) (products s) = Some p ->
        noKeys u = true ->
        update i u s = (Throw NoUpdatesProvided, s))
  /\ (forall p, List.find (hasId i) (products s) = Some p ->
        noKeys u = false ->
        let updated :=
          mkEntry i
            (orElse (Updates.brand u) (brand p))
            (orElse (Updates.flavor u) (flavor p))
            (orElse (Updates.species u) (species p))
            (orElse (Updates.lifeStage u) (lifeStage p))
            (orElse (Updates.foodType u) (foodType p))
            (orElse (Updates.ingredients u) (ingredients p))
            (orElse (Updates.sizes u) (sizes p))
            (orElse (Updates.feedingChart u) (feedingChart p)) in
        fst (update i u s) = Ok (Some updated)
        /\ List.find (hasId i) (products (snd (update i u s)))
           = Some updated
        /\ forall j, j <> i ->
             List.find (hasId j) (products (snd (update i u s)))
             = List.find (hasId j) (products s)).
Proof.
  split; [|split].
  - intros H. unfold update, bind, findById, gets, throw. cbv beta.
    now rewrite H.
  - intros p H Hno. unfold update, bind, findById, gets, throw. cbv beta.
    now rewrite H, Hno.
  - intros p H Hkeys updated.
    assert (Hid : id p = i) by now apply product_findById_id in H.
    assert (Hrun : update i u s
                   = (Ok (Some updated), withProducts (replace updated) s)).
    { unfold update, bind, findById, gets, throw. cbv beta.
      rewrite H. cbv iota beta. rewrite Hkeys.
      unfold findByIdAndUpdate. rewrite H.
      unfold applyUpdate. now rewrite Hid. }
    rewrite Hrun. simpl. split; [reflexivity|]. split.
    + change i with (id updated).
      apply product_find_replace_same with (old := p). exact H.
    + intros j Hj. now apply product_find_replace_other.
Qed.

(** [Product.update] does not look for the new key among the other
    products: giving one product the brand, flavor, species, life stage and
    food type of another succeeds and leaves two ids that resolve to
    products with the same five fields, a key [add] refuses. *)
Theorem product_update_can_repeat_a_key (s : Store) (i j : nat)
  (a b : ProductEntry) :
  List.find (hasId i) (products s) = Some a ->
  List.find (hasId j) (products s) = Some b ->
  i <> j ->
  let u :=
    Updates.make (Some (brand b)) (Some (flavor b)) (Some (species b))
      (Some (lifeStage b)) (Some (foodType b)) None None None in
  exists a',
    fst (update i u s) = Ok (Some a')
    /\ List.find (hasId i) (products (snd (update i u s))) = Some a'
    /\ List.find (hasId j) (products (snd (update i u s))) = Some b
    /\ productKey a' = productKey b
    /\ forall ings szs chart,
         fst (add (brand b) (flavor b) (species b) (lifeStage b)
                (foodType b) ings szs chart s) = Throw AlreadyExists.
Proof.
  intros Ha Hb Hne u.
  assert (Hid : id a = i) by now apply product_findById_id in Ha.
  set (a' := applyUpdate u a).
  assert (Hrun : update i u s
                 = (Ok (Some a'), withProducts (replace a') s)).
  { unfold update, bind, findById, gets, throw. cbv beta.
    rewrite Ha. cbv iota beta. unfold findByIdAndUpdate.
    simpl. now rewrite Ha. }
  exists a'. rewrite Hrun. simpl. repeat split.
  - rewrite <- Hid. change (id a) with (id a').
    apply product_find_replace_same with (old := a). simpl.
    now rewrite Hid.
  - rewrite product_find_replace_other by (simpl; congruence). exact Hb.
  - intros ings szs chart. rewrite add_taken; [reflexivity|].
    exists b. apply find_some in Hb as [Hin _]. tauto.
Qed.

(** [Product.delete] throws [NotFound] for an id that does not resolve and
    leaves the store alone; otherwise it returns the product and takes it
    out, the ingredient collection stays as it is, every other id resolves
    as before, and (ids being unique) deleting the id again throws
    [NotFound]. *)
Theorem product_delete_outcomes (i : nat) (s : Store) :
  (List.find (hasId i) (products s) = None ->
   delete i s = (Throw NotFound, s))
  /\ (forall p, List.find (hasId i) (products s) = Some p ->
        delete i s = (Ok p, mkStore (remove i (products s))
                              (ingredientStore s))
        /\ (forall j, j <> i ->
              List.find (hasId j) (products (snd (delete i s)))
              = List.find (hasId j) (products s))
        /\ (NoDup (map id (products s)) ->
            fst (delete i (snd (delete i s))) = Throw NotFound)).
Proof.
  assert (Habsent : forall s0, List.find (hasId i) (products s0) = None ->
                               delete i s0 = (Throw NotFound, s0)).
  { intros s0 H. unfold delete, bind, findByIdAndDelete, throw.
    rewrite H. unfold withProducts. rewrite product_remove_absent by exact H.
    now destruct s0. }
  split; [exact (Habsent s)|].
  intros p H.
  assert (Hrun : delete i s = (Ok p, mkStore (remove i (products s))
                                       (ingredientStore s))).
  { unfold delete, bind, findByIdAndDelete, ret. now rewrite H. }
  rewrite Hrun. simpl. split; [reflexivity|]. split.
  - intros j Hj. apply product_find_remove_other. congruence.
  - intros Hnd. rewrite Habsent; [reflexivity|]. simpl.
    now apply product_find_remove_same.
Qed.

(** A product added and then deleted by the id it was given leaves the
    product collection as it was before the [add]; the ingredients pushed
    by the [add] stay. *)
Theorem add_then_delete_restores_products (s : Store) (b f : string)
  (sp : Species) (ls : LifeStage) (ft : FoodType) (ings : list string)
  (szs : list Size) (chart : list FeedingRow) :
  ~ keyTaken b f sp ls ft s ->
  exists p,
    fst (add b f sp ls ft ings szs chart s) = Ok p
    /\ delete (id p) (snd (add b f sp ls ft ings szs chart s))
       = (Ok p,
          mkStore (products s)
            (ingredientStore (snd (add b f sp ls ft ings szs chart s)))).
Proof.
  intros Hfree. rewrite add_free by exact Hfree. simpl.
  eexists. split; [reflexivity|].
  assert (Hnone : List.find (hasId (freshId (products s))) (products s)
                  = None)
    by apply product_find_absent, product_freshId_not_in.
  unfold delete, bind, findByIdAndDelete, ret. simpl.
  rewrite (find_app_none _ _ _ Hnone). simpl.
  unfold hasId at 1. simpl. rewrite Nat.eqb_refl.
  unfold withProducts. simpl.
  now rewrite product_remove_last.
Qed.

(** A product that [add] returns is what [find] returns for its id, whatever
    the other filters. *)
Theorem add_then_find_by_id (s : Store) (b f : string) (sp : Species)
  (ls : LifeStage) (ft : FoodType) (ings : list string) (szs : list Size)
  (chart : list FeedingRow) :
  ~ keyTaken b f sp ls ft s ->
  exists p,
    fst (add b f sp ls ft ings szs chart s) = Ok p
    /\ forall b' f' sp' ls' ft',
         find (FilterOptions.make (Some (id p)) b' f' sp' ls' ft')
           (snd (add b f sp ls ft ings szs chart s))
         = One (Some p).
Proof.
  intros Hfree. rewrite add_free by exact Hfree. simpl.
  eexists. split; [reflexivity|]. intros b' f' sp' ls' ft'.
  unfold find. simpl. f_equal.
  assert (Hnone : List.find (hasId (freshId (products s))) (products s)
                  = None)
    by apply product_find_absent, product_freshId_not_in.
  rewrite (find_app_none _ _ _ Hnone). simpl.
  unfold hasId. simpl. now rewrite Nat.eqb_refl.
Qed.

(** [add] on a free key, with ingredient names that are not empty and
    differ two by two, on a store whose ingredient ids are unique: once the
    pushes it fired have settled, every name of the list is an ingredient
    rated for the product's species, and no push has rejected. *)
Lemma add_registers_every_ingredient b f sp ls ft ings szs chart s n :
  NoDup (map Ingredient.id (ingredientStore s)) ->
  ~ keyTaken b f sp ls ft s ->
  NoDup ings ->
  ~ In "" ings ->
  In n ings ->
  registered n sp
    (ingredientStore (snd (add b f sp ls ft ings szs chart s)))
  /\ unhandled ings sp s = [].
Proof.
  intros Hnd Hfree Hings Hnamed Hin. rewrite add_free by exact Hfree.
  cbn [snd ingredientStore]. split.
  - rewrite (settle_names ings sp _ Hnd Hings).
    apply oneByOne_registers_names; try assumption.
    intros ->. contradiction.
  - unfold unhandled. apply rejected_distinct; try assumption;
      now rewrite names_of_pushMany.
Qed.

(** Two products of one species with the same ingredient list, the names
    not empty and differing two by two: on a store whose ingredient ids are
    unique, no push of either [add] rejects, and the second [add] leaves
    the ingredient collection as the first [add] left it. *)
Theorem add_again_leaves_ingredients (s : Store) (b f b' f' : string)
  (sp : Species) (ls ls' : LifeStage) (ft ft' : FoodType)
  (ings : list string) (szs szs' : list Size)
  (chart chart' : list FeedingRow) :
  NoDup (map Ingredient.id (ingredientStore s)) ->
  NoDup ings ->
  ~ In "" ings ->
  ~ keyTaken b f sp ls ft s ->
  ~ keyTaken b' f' sp ls' ft' s ->
  (b, f, ls, ft) <> (b', f', ls', ft') ->
  let once := snd (add b f sp ls ft ings szs chart s) in
  unhandled ings sp s = []
  /\ unhandled ings sp once = []
  /\ ingredientStore (snd (add b' f' sp ls' ft' ings szs' chart' once))
     = ingredientStore once.
Proof.
  intros Hnd Hings Hnamed Hfree Hfree' Hne once.
  assert (Hnames : NoDup (map Ingredient.p_name
                            (Ingredient.pushMany
                               (Ingredient.Names ings sp))))
    by now rewrite names_of_pushMany.
  assert (Hall : ~ In "" (map Ingredient.p_name
                            (Ingredient.pushMany
                               (Ingredient.Names ings sp))))
    by now rewrite names_of_pushMany.
  assert (Honce : ingredientStore once
                  = Ingredient.oneByOne
                      (Ingredient.pushMany (Ingredient.Names ings sp))
                      (ingredientStore s)).
  { unfold once. rewrite (add_free b f) by exact Hfree.
    cbn [snd ingredientStore]. now apply settle_names. }
  assert (Hnd' : NoDup (map Ingredient.id (ingredientStore once)))
    by (rewrite Honce; now apply oneByOne_keeps_ids_unique).
  split; [now apply rejected_distinct|].
  split; [now apply rejected_distinct|].
  rewrite add_free.
  - cbn [snd ingredientStore]. rewrite settle_names by assumption.
    apply oneByOne_idle; [exact Hnd'|].
    intros n Hn. rewrite Honce.
    apply oneByOne_names_idle; [exact Hnd|now left].
  - unfold once. rewrite (add_free b f) by exact Hfree.
    intros [q [Hin Hkey]]. simpl in Hin. apply in_app_iff in Hin.
    destruct Hin as [Hin|[Heq|[]]].
    + apply Hfree'. now exists q.
    + subst q. simpl in Hkey.
      destruct Hkey as (-> & -> & _ & -> & ->). now apply Hne.
Qed.

End ProductWrites.

(** ** Invariants of the product collection, and the POST route *)

Section ProductInvariants.
Import Product.

Implicit Types (s : Store) (p : ProductEntry).

(** What [addSize] does to the store, by what it finds. *)
Lemma addSize_by_cases productId (size : SizeDetails.t) s :
  (exists e, addSize productId size s = (Throw e, s))
  \/ (exists p sz,
        List.find (hasId productId) (products s) = Some p
        /\ addSize productId size s
           = (Ok (withSizes p (sizes p ++ [sz])),
              withProducts (replace (withSizes p (sizes p ++ [sz]))) s)).
Proof.
  unfold addSize, bind, findById, gets, throw, save.
  destruct (List.find (hasId productId) (products s)) as [p|] eqn:E;
    [|left; now eexists].
  destruct (truthyString (SizeDetails.packaging size)),
    (truthyNumber (SizeDetails.price size)),
    (truthyNumber (SizeDetails.count size)),
    (SizeDetails.unit size);
    try (left; now eexists).
  right. now eexists; eexists.
Qed.

(** Every method that writes products keeps their ids distinct. *)
Theorem product_ids_stay_unique (s : Store) :
  NoDup (map id (products s)) ->
  (forall b f sp ls ft ings szs chart,
     NoDup (map id (products (snd (add b f sp ls ft ings szs chart s)))))
  /\ (forall i u, NoDup (map id (products (snd (update i u s)))))
  /\ (forall i size, NoDup (map id (products (snd (addSize i size s)))))
  /\ (forall i, NoDup (map id (products (snd (delete i s))))).
Proof.
  intros Hnd. repeat split.
  - intros. unfold add, bind, findOne, gets, throw, unawaited, modify,
      create. cbv beta.
    destruct (List.find (hasKey b f sp ls ft) (products s)); simpl;
      [exact Hnd|].
    rewrite map_app. simpl. apply NoDup_snoc; [exact Hnd|].
    apply product_freshId_not_in.
  - intros. unfold update, bind, findById, gets, throw. cbv beta.
    destruct (List.find (hasId i) (products s)) eqn:E; simpl;
      [|exact Hnd].
    destruct (noKeys u); simpl; [exact Hnd|].
    unfold findByIdAndUpdate. rewrite E. simpl.
    now rewrite product_map_id_replace.
  - intros.
    destruct (addSize_by_cases i size s) as [[e ->]|(p & sz & _ & ->)];
      simpl; [exact Hnd|].
    now rewrite product_map_id_replace.
  - intros. unfold delete, bind, findByIdAndDelete, throw, ret.
    destruct (List.find (hasId i) (products s)); simpl;
      now apply product_remove_unique.
Qed.

(** [add], [addSize] and [delete] keep the five-field key unique among the
    products. ([update] does not: it writes the key fields it is given.) *)
Theorem product_keys_stay_unique (s : Store) :
  NoDup (map productKey (products s)) ->
  (forall b f sp ls ft ings szs chart,
     NoDup (map productKey
              (products (snd (add b f sp ls ft ings szs chart s)))))
  /\ (forall i size,
        NoDup (map productKey (products (snd (addSize i size s)))))
  /\ (forall i, NoDup (map productKey (products (snd (delete i s))))).
Proof.
  intros Hnd. repeat split.
  - intros.
    destruct (List.find (hasKey b f sp ls ft) (products s)) as [q|] eqn:E.
    + rewrite add_taken; [exact Hnd|]. apply findOne_key. now exists q.
    + assert (Hfree : ~ keyTaken b f sp ls ft s).
      { intros H. apply findOne_key in H as [q H]. congruence. }
      rewrite add_free by exact Hfree. simpl. rewrite map_app. simpl.
      apply NoDup_snoc; [exact Hnd|].
      intros Hin. apply Hfree, keyTaken_In. exact Hin.
  - intros.
    destruct (addSize_by_cases i size s) as [[e ->]|(p & sz & Hp & ->)];
      simpl; [exact Hnd|].
    rewrite product_key_replace with (old := p); [exact Hnd| |reflexivity].
    simpl. apply product_findById_id in Hp as Hid. now rewrite Hid.
  - intros. unfold delete, bind, findByIdAndDelete, throw, ret.
    destruct (List.find (hasId i) (products s)); simpl;
      now apply product_remove_unique.
Qed.

(** [addSize] touches the sizes of the one product and nothing else: the
    ingredient collection and every other id are as before, and the product
    returned has the id and the other fields of the stored one, with one
    size more at the end of its sizes. *)
Theorem addSize_touches_only_sizes (productId : nat)
  (size : SizeDetails.t) (s : Store) :
  ingredientStore (snd (addSize productId size s)) = ingredientStore s
  /\ (forall j, j <> productId ->
        List.find (hasId j) (products (snd (addSize productId size s)))
        = List.find (hasId j) (products s))
  /\ (forall p', fst (addSize productId size s) = Ok p' ->
        exists p sz,
          List.find (hasId productId) (products s) = Some p
          /\ p' = mkEntry (id p) (brand p) (flavor p) (species p)
                    (lifeStage p) (foodType p) (ingredients p)
                    (sizes p ++ [sz]) (feedingChart p)
          /\ List.find (hasId productId)
               (products (snd (addSize productId size s))) = Some p').
Proof.
  destruct (addSize_by_cases productId size s)
    as [[e ->]|(p & sz & Hp & ->)]; simpl.
  - repeat split; try reflexivity. discriminate.
  - apply product_findById_id in Hp as Hid. repeat split.
    + intros j Hj. apply product_find_replace_other. simpl. congruence.
    + intros p' H. injection H as <-. exists p, sz.
      split; [exact Hp|]. split; [reflexivity|].
      rewrite <- Hid at 1.
      change (id p) with (id (withSizes p (sizes p ++ [sz]))) at 1.
      apply product_find_replace_same with (old := p). simpl.
      now rewrite Hid.
Qed.

(** [addSize] does not compare the new size with the sizes the product has:
    the same complete size added twice is stored twice. *)
Theorem addSize_twice_stores_two (s : Store) (productId : nat)
  (p : ProductEntry) (pk : string) (pr ct : Q) (u : Unit)
  (lk im : option (list string)) :
  List.find (hasId productId) (products s) = Some p ->
  pk <> "" -> ~ pr == 0 -> ~ ct == 0 ->
  let size := SizeDetails.make (Some pk) (Some pr) (Some ct) (Some u) lk im in
  let sz := mkSize pk pr ct u (orElse lk []) (orElse im []) in
  fst (addSize productId size (snd (addSize productId size s)))
  = Ok (withSizes p (sizes p ++ [sz; sz])).
Proof.
  intros Hp Hpk Hpr Hct size sz.
  apply product_findById_id in Hp as Hid.
  assert (Hrun : forall s0 q,
             List.find (hasId productId) (products s0) = Some q ->
             addSize productId size s0
             = (Ok (withSizes q (sizes q ++ [sz])),
                withProducts (replace (withSizes q (sizes q ++ [sz]))) s0)).
  { intros s0 q Hq. unfold addSize, bind, findById, gets, save.
    rewrite Hq. unfold size.
    cbn [SizeDetails.packaging SizeDetails.price SizeDetails.count
         SizeDetails.unit SizeDetails.links SizeDetails.imageUrls].
    rewrite truthyString_some, !truthyNumber_some by assumption.
    reflexivity. }
  rewrite (Hrun s p Hp). simpl.
  rewrite (Hrun _ (withSizes p (sizes p ++ [sz]))).
  - simpl. unfold withSizes. simpl. now rewrite <- app_assoc.
  - simpl. rewrite <- Hid at 1.
    change (id p) with (id (withSizes p (sizes p ++ [sz]))) at 1.
    apply product_find_replace_same with (old := p). simpl.
    now rewrite Hid.
Qed.

(** The POST route answers 400 with the message "Product already exists"
    exactly when the key of the body is taken, and then leaves the store
    alone; otherwise it answers 201 with the product created, and the same
    body posted again is answered 400 with that message, the store staying
    as the first POST left it. *)
Theorem post_created_then_rejected (body : Routes.Body) (s : Store) :
  let taken :=
    keyTaken (Routes.brand body) (Routes.flavor body) (Routes.species body)
      (Routes.lifeStage body) (Routes.foodType body) s in
  let rejected :=
    Routes.mkResponse 400 (Routes.ErrorJson "Product already exists") in
  (taken -> Routes.post body s = (rejected, s))
  /\ (~ taken ->
      exists p,
        fst (Routes.post body s)
        = Routes.mkResponse 201 (Routes.ProductJson p)
        /\ In p (products (snd (Routes.post body s)))
        /\ Routes.post body (snd (Routes.post body s))
           = (rejected, snd (Routes.post body s))).
Proof.
  intros taken rejected. split.
  - intros H. unfold Routes.post. now rewrite add_taken.
  - intros H.
    pose proof (add_free (Routes.brand body) (Routes.flavor body)
                  (Routes.species body) (Routes.lifeStage body)
                  (Routes.foodType body) (Routes.ingredients body)
                  (Routes.sizes body) (Routes.feedingChart body) s H)
      as Hadd.
    cbv zeta in Hadd.
    match type of Hadd with
    | _ = (Ok ?p0, ?s1) =>
        assert (Hrun : Routes.post body s
                       = (Routes.mkResponse 201 (Routes.ProductJson p0), s1))
          by (unfold Routes.post; now rewrite Hadd);
        exists p0
    end.
    rewrite Hrun. simpl. split; [reflexivity|]. split.
    + apply in_app_iff. right. now left.
    + unfold Routes.post. rewrite add_taken; [reflexivity|].
      eexists. split; [simpl; apply in_app_iff; right; now left|].
      simpl. tauto.
Qed.

End ProductInvariants.

(** ** Runs of the further properties on the sample data *)

Section FurtherRuns.
Import Samples.

Ltac apart :=
  repeat (constructor; [simpl; intuition discriminate|]); constructor.

Lemma pantry_ids_unique : NoDup (map Ingredient.id pantry).
Proof. apart. Qed.

Lemma pantry_ratedOnce : ratedOnce pantry.
Proof.
  unfold ratedOnce, pantry. repeat (constructor; [apart|]). constructor.
Qed.

Lemma shelf_free b f ls :
  f <> "Salmon" -> ~ keyTaken b f cat ls wet shelf.
Proof.
  intros Hf [p [Hin Hkey]]. simpl in Hin.
  destruct Hin as [<-|[<-|[<-|[]]]]; simpl in Hkey;
    destruct Hkey as (_ & Hflavor & _); congruence.
Qed.

(** Beef merged into Corn: the ids left are distinct. *)
Lemma ingredient_ids_stay_unique_witness :
  NoDup (map Ingredient.id pantry)
  /\ NoDup (map Ingredient.id
              (snd (Ingredient.mergeDuplicates 3 1 pantry))).
Proof.
  split; [exact pantry_ids_unique|].
  destruct (ingredient_ids_stay_unique pantry pantry_ids_unique)
    as (_ & _ & _ & _ & _ & _ & Hmerge & _).
  apply Hmerge.
Defined.

(** A dog rating pushed onto Beef: no entry rates a species twice. *)
Lemma ratings_stay_unique_per_species_witness :
  ratedOnce pantry
  /\ ratedOnce
       (snd (Ingredient.push "Beef" dog (given 2%Z) undefined pantry)).
Proof.
  split; [exact pantry_ratedOnce|].
  destruct (ratings_stay_unique_per_species pantry pantry_ratedOnce)
    as (Hpush & _).
  apply Hpush.
Defined.

(** Beef renamed to Rice, next to Rice. *)
Lemma ingredient_update_can_repeat_a_name_witness :
  List.find (Ingredient.hasId 1) pantry = Some beef
  /\ List.find (Ingredient.hasId 2) pantry = Some rice
  /\ 1 <> 2
  /\ fst (Ingredient.update 1
            (Ingredient.Updates.make (Some "Rice") None) pantry)
     = Ok (Some (Ingredient.mkEntry 1 "Rice" (Ingredient.ratings beef))).
Proof.
  assert (H1 : List.find (Ingredient.hasId 1) pantry = Some beef)
    by reflexivity.
  assert (H2 : List.find (Ingredient.hasId 2) pantry = Some rice)
    by reflexivity.
  assert (H3 : 1 <> 2) by discriminate.
  split; [exact H1|]. split; [exact H2|]. split; [exact H3|].
  exact (proj1 (ingredient_update_can_repeat_a_name pantry 1 2 beef rice
                  H1 H2 H3)).
Defined.


(** Rice and Peas pushed for cats, twice over. *)
Lemma pushMany_names_twice_witness :
  NoDup (map Ingredient.id pantry)
  /\ NoDup ["Rice"; "Peas"]
  /\ Ingredient.settle
       (Ingredient.pushMany (Ingredient.Names ["Rice"; "Peas"] cat))
       (Ingredient.settle
          (Ingredient.pushMany (Ingredient.Names ["Rice"; "Peas"] cat))
          pantry)
     = Ingredient.settle
         (Ingredient.pushMany (Ingredient.Names ["Rice"; "Peas"] cat))
         pantry.
Proof.
  assert (H2 : NoDup ["Rice"; "Peas"]) by apart.
  split; [exact pantry_ids_unique|]. split; [exact H2|].
  exact (pushMany_names_twice ["Rice"; "Peas"] cat pantry
           pantry_ids_unique H2).
Defined.

(** Peas, not in the pantry, named twice in one list: stored twice. Chicken,
    rated for cats, named twice: the second [save] is rejected. *)
Lemma pushMany_repeated_name_witness :
  NoDup (map Ingredient.id pantry)
  /\ "Peas" <> "" /\ "Chicken" <> ""
  /\ Ingredient.settle
       (Ingredient.pushMany (Ingredient.Names ["Peas"; "Peas"] cat)) pantry
     = pantry
         ++ [Ingredient.mkEntry 5 "Peas" [Ingredient.mkRating cat None None];
             Ingredient.mkEntry 6 "Peas" [Ingredient.mkRating cat None None]]
  /\ Ingredient.rejected
       (Ingredient.pushMany (Ingredient.Names ["Chicken"; "Chicken"] cat))
       pantry
     = [VersionError].
Proof.
  assert (Hpeas : "Peas" <> "") by discriminate.
  assert (Hchicken : "Chicken" <> "") by discriminate.
  split; [exact pantry_ids_unique|].
  split; [exact Hpeas|]. split; [exact Hchicken|].
  destruct (pushMany_repeated_name pantry "Peas" cat pantry_ids_unique
              Hpeas) as (Hnew & _ & _).
  destruct (pushMany_repeated_name pantry "Chicken" cat pantry_ids_unique
              Hchicken) as (_ & Hrated & _).
  split.
  - now apply Hnew.
  - apply (Hrated chicken); [reflexivity|simpl; tauto].
Defined.


(** Peas pushed for dogs, then read back with [getAll]. *)
Lemma getAll_after_pushMany_witness :
  NoDup (map Ingredient.id pantry)
  /\ NoDup ["Peas"]
  /\ In "Peas" ["Peas"]
  /\ "Peas" <> ""
  /\ exists fetched,
       In fetched
         (Ingredient.getAll
            (Ingredient.settle
               (Ingredient.pushMany (Ingredient.Names ["Peas"] dog)) pantry)
            dog)
       /\ Ingredient.Instance.name fetched = "Peas"
       /\ Ingredient.Instance.species fetched = dog.
Proof.
  assert (H2 : NoDup ["Peas"]) by apart.
  assert (H3 : In "Peas" ["Peas"]) by (simpl; tauto).
  assert (H4 : "Peas" <> "") by discriminate.
  split; [exact pantry_ids_unique|]. split; [exact H2|].
  split; [exact H3|]. split; [exact H4|].
  exact (getAll_after_pushMany ["Peas"] dog pantry "Peas"
           pantry_ids_unique H2 H3 H4).
Defined.

(** The adult kibble given the key of the young one. *)
Lemma product_update_can_repeat_a_key_witness :
  List.find (Product.hasId 1) (Product.products shelf)
  = Some (kibble 1 adult)
  /\ List.find (Product.hasId 2) (Product.products shelf)
     = Some (kibble 2 young)
  /\ 1 <> 2
  /\ exists a',
       List.find (Product.hasId 1)
         (Product.products
            (snd (Product.update 1
                    (Product.Updates.make (Some "Acme") (Some "Salmon")
                       (Some cat) (Some young) (Some dry) None None None)
                    shelf))) = Some a'
       /\ productKey a' = productKey (kibble 2 young).
Proof.
  assert (H1 : List.find (Product.hasId 1) (Product.products shelf)
               = Some (kibble 1 adult)) by reflexivity.
  assert (H2 : List.find (Product.hasId 2) (Product.products shelf)
               = Some (kibble 2 young)) by reflexivity.
  assert (H3 : 1 <> 2) by discriminate.
  split; [exact H1|]. split; [exact H2|]. split; [exact H3|].
  destruct (product_update_can_repeat_a_key shelf 1 2 (kibble 1 adult)
              (kibble 2 young) H1 H2 H3) as (a' & _ & Hi & _ & Hkey & _).
  exists a'. split; [exact Hi|exact Hkey].
Defined.

(** A tuna product added to the shelf and deleted again. *)
Lemma add_then_delete_restores_products_witness :
  ~ keyTaken "Acme" "Tuna" cat adult wet shelf
  /\ exists p,
       fst (Product.add "Acme" "Tuna" cat adult wet ["Tuna"] [] [] shelf)
       = Ok p
       /\ Product.products
            (snd (Product.delete (Product.id p)
                    (snd (Product.add "Acme" "Tuna" cat adult wet ["Tuna"]
                            [] [] shelf))))
          = Product.products shelf.
Proof.
  assert (H : ~ keyTaken "Acme" "Tuna" cat adult wet shelf)
    by (apply shelf_free; discriminate).
  split; [exact H|].
  destruct (add_then_delete_restores_products shelf "Acme" "Tuna" cat adult
              wet ["Tuna"] [] [] H) as (p & Hp & Hdel).
  exists p. split; [exact Hp|]. now rewrite Hdel.
Defined.

(** A tuna product added to the shelf and looked up by its id. *)
Lemma add_then_find_by_id_witness :
  ~ keyTaken "Acme" "Tuna" cat adult wet shelf
  /\ exists p,
       fst (Product.add "Acme" "Tuna" cat adult wet ["Tuna"] [] [] shelf)
       = Ok p
       /\ Product.find
            (Product.FilterOptions.make (Some (Product.id p)) None None
               None (Some young) None)
            (snd (Product.add "Acme" "Tuna" cat adult wet ["Tuna"] [] []
                    shelf))
          = Product.One (Some p).
Proof.
  assert (H : ~ keyTaken "Acme" "Tuna" cat adult wet shelf)
    by (apply shelf_free; discriminate).
  split; [exact H|].
  destruct (add_then_find_by_id shelf "Acme" "Tuna" cat adult wet ["Tuna"]
              [] [] H) as (p & Hp & Hfind).
  exists p. split; [exact Hp|]. apply Hfind.
Defined.

(** Tuna and trout products with the same two ingredients. *)
Lemma add_again_leaves_ingredients_witness :
  NoDup (map Ingredient.id (Product.ingredientStore shelf))
  /\ NoDup ["Fish"; "Rice"]
  /\ ~ In "" ["Fish"; "Rice"]
  /\ ~ keyTaken "Acme" "Tuna" cat adult wet shelf
  /\ ~ keyTaken "Acme" "Trout" cat adult wet shelf
  /\ ("Acme", "Tuna", adult, wet) <> ("Acme", "Trout", adult, wet)
  /\ Product.unhandled ["Fish"; "Rice"] cat shelf = []
  /\ Product.ingredientStore
       (snd (Product.add "Acme" "Trout" cat adult wet ["Fish"; "Rice"] [] []
               (snd (Product.add "Acme" "Tuna" cat adult wet
                       ["Fish"; "Rice"] [] [] shelf))))
     = Product.ingredientStore
         (snd (Product.add "Acme" "Tuna" cat adult wet ["Fish"; "Rice"]
                 [] [] shelf)).
Proof.
  assert (H1 : NoDup (map Ingredient.id (Product.ingredientStore shelf)))
    by constructor.
  assert (Hings : NoDup ["Fish"; "Rice"]) by apart.
  assert (Hnamed : ~ In "" ["Fish"; "Rice"])
    by (simpl; intuition discriminate).
  assert (H2 : ~ keyTaken "Acme" "Tuna" cat adult wet shelf)
    by (apply shelf_free; discriminate).
  assert (H3 : ~ keyTaken "Acme" "Trout" cat adult wet shelf)
    by (apply shelf_free; discriminate).
  assert (H4 : ("Acme", "Tuna", adult, wet) <> ("Acme", "Trout", adult, wet))
    by discriminate.
  split; [exact H1|]. split; [exact Hings|]. split; [exact Hnamed|].
  split; [exact H2|]. split; [exact H3|]. split; [exact H4|].
  destruct (add_again_leaves_ingredients shelf "Acme" "Tuna" "Acme" "Trout"
              cat adult adult wet wet ["Fish"; "Rice"] [] [] [] [] H1 Hings
              Hnamed H2 H3 H4) as (Hfirst & _ & Hsame).
  split; [exact Hfirst|exact Hsame].
Defined.

(** The shelf after the young kibble is deleted. *)
Lemma product_ids_stay_unique_witness :
  NoDup (map Product.id (Product.products shelf))
  /\ NoDup (map Product.id (Product.products (snd (Product.delete 2 shelf)))).
Proof.
  assert (H : NoDup (map Product.id (Product.products shelf))) by apart.
  split; [exact H|].
  destruct (product_ids_stay_unique shelf H) as (_ & _ & _ & Hdel).
  apply Hdel.
Defined.

(** The shelf after a tuna product is added. *)
Lemma product_keys_stay_unique_witness :
  NoDup (map productKey (Product.products shelf))
  /\ NoDup (map productKey
              (Product.products
                 (snd (Product.add "Acme" "Tuna" cat adult wet [] [] []
                         shelf)))).
Proof.
  assert (H : NoDup (map productKey (Product.products shelf))) by apart.
  split; [exact H|].
  destruct (product_keys_stay_unique shelf H) as (Hadd & _).
  apply Hadd.
Defined.

(** The same bag added twice to the adult kibble. *)
Lemma addSize_twice_stores_two_witness :
  List.find (Product.hasId 1) (Product.products shelf)
  = Some (kibble 1 adult)
  /\ "bag" <> ""
  /\ ~ 12 == 0
  /\ ~ 4 == 0
  /\ fst (Product.addSize 1 (bag (Some 12%Q))
            (snd (Product.addSize 1 (bag (Some 12%Q)) shelf)))
     = Ok (Product.withSizes (kibble 1 adult)
             [Product.mkSize "bag" 12 4 lb [] [];
              Product.mkSize "bag" 12 4 lb [] []]).
Proof.
  assert (H1 : List.find (Product.hasId 1) (Product.products shelf)
               = Some (kibble 1 adult)) by reflexivity.
  assert (H2 : "bag" <> "") by discriminate.
  assert (H3 : ~ 12 == 0) by discriminate.
  assert (H4 : ~ 4 == 0) by discriminate.
  split; [exact H1|]. split; [exact H2|]. split; [exact H3|].
  split; [exact H4|].
  exact (addSize_twice_stores_two shelf 1 (kibble 1 adult) "bag" 12 4 lb
           None None H1 H2 H3 H4).
Defined.

End FurtherRuns.
